(** * Hydrogram: forward_messages, get_chat_photos and ChatMember._parse

    A shallow embedding of three leaf components of the Hydrogram Telegram
    client:

    - [hydrogram/types/user_and_chats/chat_member.py]  ([ChatMember._parse]),
    - [hydrogram/methods/messages/forward_messages.py] ([forward_messages]),
    - [hydrogram/methods/users/get_chat_photos.py]     ([get_chat_photos]).

    Python dictionaries are finite maps ([gmap Z _]), Python [int]s are [Z],
    [None]-able attributes are [option]s.  Exceptions raised by the three
    files themselves ([KeyError] on [d[k]], [IndexError] on [l[0]]) are
    explicit in the [result] type.  The collaborators that live elsewhere in
    the library (the sub-parsers, [utils], the RPC gateway) are parameters;
    none of the three files catches an exception, so a failure of a
    collaborator leaves the call without a result and is not represented. *)

From Stdlib Require Import ZArith String List Lia.
From stdpp Require Import base option list gmap strings.

Local Open Scope Z_scope.

(** ** Exceptions raised by the code under study *)

Inductive exn : Type :=
| KeyError (key : Z)     (* [d[key]] on a dict without [key] *)
| IndexError.            (* [l[0]] on an empty list *)

Inductive result (A : Type) : Type :=
| Ok (a : A)
| Raise (e : exn).

Arguments Ok {A} a.
Arguments Raise {A} e.

#[global] Instance result_ret : MRet result := fun _ a => Ok a.
#[global] Instance result_bind : MBind result := fun _ _ k m =>
  match m with
  | Ok a => k a
  | Raise e => Raise e
  end.

(** [d[k]] on a Python dict. *)
Definition getitem {V : Type} (d : gmap Z V) (k : Z) : result V :=
  match d !! k with
  | Some v => Ok v
  | None => Raise (KeyError k)
  end.

(** ** Wire-level types named by the source *)

(** [raw.base.Peer]: the three peer kinds of the protocol. *)
Inductive Peer : Type :=
| PeerUser (user_id : Z)
| PeerChat (chat_id : Z)
| PeerChannel (channel_id : Z).

(** [isinstance(peer, raw.types.PeerUser)] *)
Definition is_PeerUser (peer : Peer) : bool :=
  match peer with
  | PeerUser _ => true
  | _ => false
  end.

(** [chat_id: Union[int, str]]: a numeric id, or a username, phone number,
    ["me"] or ["self"]. *)
Inductive ChatId : Type :=
| ChatInt (id : Z)
| ChatStr (name : string).

(** [raw.base.InputPeer], what [resolve_peer] returns. *)
Inductive InputPeer : Type :=
| InputPeerEmpty
| InputPeerSelf
| InputPeerChat (chat_id : Z)
| InputPeerUser (user_id access_hash : Z)
| InputPeerChannel (channel_id access_hash : Z).

(** [enums.ChatMemberStatus] *)
Inductive ChatMemberStatus : Type :=
| OWNER | ADMINISTRATOR | MEMBER | RESTRICTED | LEFT | BANNED.

(** ** Collaborators outside the three files

    Types and functions of the library that the three files use but do not
    define.  They are kept abstract; every theorem below holds for all of
    them. *)
Class Collaborators : Type := {
  RawUser : Type;              (* raw.base.User *)
  RawChat : Type;              (* raw.base.Chat *)
  RawMessage : Type;           (* raw.base.Message *)
  ChatAdminRights : Type;      (* raw.types.ChatAdminRights *)
  ChatBannedRights : Type;     (* raw.types.ChatBannedRights *)
  User : Type;                 (* types.User *)
  Chat : Type;                 (* types.Chat *)
  Message : Type;              (* types.Message *)
  Photo : Type;                (* types.Photo *)
  Datetime : Type;             (* datetime.datetime *)
  ChatPrivileges : Type;       (* types.ChatPrivileges *)
  ChatPermissions : Type;      (* types.ChatPermissions *)
  raw_user_id : RawUser -> Z;                      (* [i.id] for [i] in [r.users] *)
  raw_chat_id : RawChat -> Z;                      (* [i.id] for [i] in [r.chats] *)
  view_messages : ChatBannedRights -> bool;        (* truth value of [banned_rights.view_messages] *)
  rights_until_date : ChatBannedRights -> Z;       (* [banned_rights.until_date] *)
  file_id : Photo -> string;                       (* [photo.file_id] *)
  new_chat_photo : Message -> Photo;               (* [message.new_chat_photo] *)
  get_raw_peer_id : Peer -> Z;                     (* utils.get_raw_peer_id *)
  timestamp_to_datetime : Z -> option Datetime;    (* utils.timestamp_to_datetime *)
  datetime_to_timestamp : option Datetime -> option Z;  (* utils.datetime_to_timestamp *)
  User_parse : RawUser -> option User;             (* types.User._parse(client, ·); None for an empty user *)
  Chat_parse_chat : RawChat -> Chat;               (* types.Chat._parse_chat(client, ·) *)
  ChatPrivileges_parse : ChatAdminRights -> ChatPrivileges;
  ChatPermissions_parse : ChatBannedRights -> ChatPermissions;
  Message_parse : RawMessage -> gmap Z RawUser -> gmap Z RawChat -> Message;
}.

(** * ChatMember._parse *)

Module ChatMember.
Section parse.
Context `{Collaborators}.

(** The objects [_parse] can be handed: the three [raw.base.ChatParticipant]
    and six [raw.base.ChannelParticipant] constructors, with the attributes
    the function reads, and any other object, identified by its class name. *)
Inductive Participant : Type :=
| ChatParticipant (user_id inviter_id date : Z)
| ChatParticipantAdmin (user_id inviter_id date : Z)
| ChatParticipantCreator (user_id : Z)
| ChannelParticipant (user_id date : Z)
| ChannelParticipantAdmin (can_edit : bool) (user_id : Z) (inviter_id : option Z)
    (promoted_by date : Z) (admin_rights : ChatAdminRights) (rank : option string)
| ChannelParticipantBanned (left : bool) (peer : Peer) (kicked_by date : Z)
    (banned_rights : ChatBannedRights)
| ChannelParticipantCreator (user_id : Z) (admin_rights : ChatAdminRights)
    (rank : option string)
| ChannelParticipantLeft (peer : Peer)
| ChannelParticipantSelf (user_id inviter_id date : Z)
| OtherObject (class_name : string).

(** The attributes set by [ChatMember.__init__]; [None] is Python's [None]. *)
Record t : Type := {
  status : ChatMemberStatus;
  user : option User;
  chat : option Chat;
  custom_title : option string;
  until_date : option Datetime;
  joined_date : option Datetime;
  invited_by : option User;
  promoted_by : option User;
  restricted_by : option User;
  is_member : option bool;
  can_be_edited : option bool;
  permissions : option ChatPermissions;
  privileges : option ChatPrivileges;
}.

(** [ChatMember._parse(client, member, users, chats)].  [Ok None] is the
    final [return None]; keyword arguments are evaluated left to right, so
    the first missing key is the one reported.  An optional integer
    attribute is false when it is [None] or [0].  What [User._parse] makes
    of a table entry is stored as it is, [None] included. *)
Definition _parse (member : Participant)
    (users : gmap Z RawUser) (chats : gmap Z RawChat) : result (option t) :=
  match member with
  (* Chat participants *)
  | ChatParticipant user_id inviter_id date =>
      u ← getitem users user_id;
      i ← getitem users inviter_id;
      mret (Some {| status := MEMBER;
                    user := User_parse u;
                    chat := None; custom_title := None; until_date := None;
                    joined_date := timestamp_to_datetime date;
                    invited_by := User_parse i;
                    promoted_by := None; restricted_by := None;
                    is_member := None; can_be_edited := None;
                    permissions := None; privileges := None |})
  | ChatParticipantAdmin user_id inviter_id date =>
      u ← getitem users user_id;
      i ← getitem users inviter_id;
      mret (Some {| status := ADMINISTRATOR;
                    user := User_parse u;
                    chat := None; custom_title := None; until_date := None;
                    joined_date := timestamp_to_datetime date;
                    invited_by := User_parse i;
                    promoted_by := None; restricted_by := None;
                    is_member := None; can_be_edited := None;
                    permissions := None; privileges := None |})
  | ChatParticipantCreator user_id =>
      u ← getitem users user_id;
      mret (Some {| status := OWNER;
                    user := User_parse u;
                    chat := None; custom_title := None; until_date := None;
                    joined_date := None; invited_by := None;
                    promoted_by := None; restricted_by := None;
                    is_member := None; can_be_edited := None;
                    permissions := None; privileges := None |})
  (* Channel participants *)
  | ChannelParticipant user_id date =>
      u ← getitem users user_id;
      mret (Some {| status := MEMBER;
                    user := User_parse u;
                    chat := None; custom_title := None; until_date := None;
                    joined_date := timestamp_to_datetime date;
                    invited_by := None;
                    promoted_by := None; restricted_by := None;
                    is_member := None; can_be_edited := None;
                    permissions := None; privileges := None |})
  | ChannelParticipantAdmin can_edit user_id inviter_id promoter date admin_rights rank =>
      u ← getitem users user_id;
      p ← getitem users promoter;
      i ← match inviter_id with      (* [... if member.inviter_id else None] *)
          | Some k =>
              if k =? 0 then mret None
              else r ← getitem users k; mret (User_parse r)
          | None => mret None
          end;
      mret (Some {| status := ADMINISTRATOR;
                    user := User_parse u;
                    chat := None;
                    custom_title := rank;
                    until_date := None;
                    joined_date := timestamp_to_datetime date;
                    invited_by := i;
                    promoted_by := User_parse p;
                    restricted_by := None;
                    is_member := None;
                    can_be_edited := Some can_edit;
                    permissions := None;
                    privileges := Some (ChatPrivileges_parse admin_rights) |})
  | ChannelParticipantBanned has_left peer kicked_by date banned_rights =>
      let peer_id := get_raw_peer_id peer in
      u ← (if is_PeerUser peer
           then r ← getitem users peer_id; mret (User_parse r)
           else mret None);
      c ← (if is_PeerUser peer
           then mret None
           else r ← getitem chats peer_id; mret (Some (Chat_parse_chat r)));
      k ← getitem users kicked_by;
      mret (Some {| status := if view_messages banned_rights then BANNED else RESTRICTED;
                    user := u;
                    chat := c;
                    custom_title := None;
                    until_date := timestamp_to_datetime (rights_until_date banned_rights);
                    joined_date := timestamp_to_datetime date;
                    invited_by := None; promoted_by := None;
                    restricted_by := User_parse k;
                    is_member := Some (negb has_left);
                    can_be_edited := None;
                    permissions := Some (ChatPermissions_parse banned_rights);
                    privileges := None |})
  | ChannelParticipantCreator user_id admin_rights rank =>
      u ← getitem users user_id;
      mret (Some {| status := OWNER;
                    user := User_parse u;
                    chat := None;
                    custom_title := rank;
                    until_date := None; joined_date := None; invited_by := None;
                    promoted_by := None; restricted_by := None;
                    is_member := None; can_be_edited := None;
                    permissions := None;
                    privileges := Some (ChatPrivileges_parse admin_rights) |})
  | ChannelParticipantLeft peer =>
      let peer_id := get_raw_peer_id peer in
      u ← (if is_PeerUser peer
           then r ← getitem users peer_id; mret (User_parse r)
           else mret None);
      c ← (if is_PeerUser peer
           then mret None
           else r ← getitem chats peer_id; mret (Some (Chat_parse_chat r)));
      mret (Some {| status := LEFT;
                    user := u;
                    chat := c;
                    custom_title := None; until_date := None; joined_date := None;
                    invited_by := None; promoted_by := None; restricted_by := None;
                    is_member := None; can_be_edited := None;
                    permissions := None; privileges := None |})
  | ChannelParticipantSelf user_id inviter_id date =>
      u ← getitem users user_id;
      i ← getitem users inviter_id;
      mret (Some {| status := MEMBER;
                    user := User_parse u;
                    chat := None; custom_title := None; until_date := None;
                    joined_date := timestamp_to_datetime date;
                    invited_by := User_parse i;
                    promoted_by := None; restricted_by := None;
                    is_member := None; can_be_edited := None;
                    permissions := None; privileges := None |})
  | OtherObject _ => mret None
  end.

(** The peer of the two variants whose subject is given as a peer. *)
Definition member_peer (member : Participant) : option Peer :=
  match member with
  | ChannelParticipantBanned _ peer _ _ _ => Some peer
  | ChannelParticipantLeft peer => Some peer
  | _ => None
  end.

(** The side-loaded tables hold the subject a peer refers to. *)
Definition subject_present (peer : Peer)
    (users : gmap Z RawUser) (chats : gmap Z RawChat) : Prop :=
  if is_PeerUser peer
  then is_Some (users !! get_raw_peer_id peer)
  else is_Some (chats !! get_raw_peer_id peer).

(** The table entry of the subject, by the constructor of the peer. *)
Definition subject_listed (peer : Peer)
    (users : gmap Z RawUser) (chats : gmap Z RawChat) : Prop :=
  match peer with
  | PeerUser _ => is_Some (users !! get_raw_peer_id peer)
  | PeerChat _ | PeerChannel _ => is_Some (chats !! get_raw_peer_id peer)
  end.

(** [user] and [chat] of a result, as the peer kind decides them: for a
    user peer what [User._parse] makes of the users entry, and no chat; for
    a chat or channel peer the parsed chats entry, and no user. *)
Definition subject_resolved (peer : Peer)
    (users : gmap Z RawUser) (chats : gmap Z RawChat) (cm : t) : Prop :=
  match peer with
  | PeerUser _ =>
      (exists u, users !! get_raw_peer_id peer = Some u /\
                 user cm = User_parse u) /\ chat cm = None
  | PeerChat _ | PeerChannel _ =>
      (exists c, chats !! get_raw_peer_id peer = Some c /\
                 chat cm = Some (Chat_parse_chat c)) /\ user cm = None
  end.

(** The ids a banned or left record refers to are listed, by the
    constructor of the peer. *)
Definition references_listed (member : Participant)
    (users : gmap Z RawUser) (chats : gmap Z RawChat) : Prop :=
  match member with
  | ChannelParticipantBanned _ peer kicked_by _ _ =>
      subject_listed peer users chats /\ is_Some (users !! kicked_by)
  | ChannelParticipantLeft peer => subject_listed peer users chats
  | _ => True
  end.

(** The ids a banned or left record refers to are in the side-loaded
    tables: the gateway's invariant, without which [_parse] raises. *)
Definition tables_complete (member : Participant)
    (users : gmap Z RawUser) (chats : gmap Z RawChat) : Prop :=
  match member with
  | ChannelParticipantBanned _ peer kicked_by _ _ =>
      subject_present peer users chats /\ is_Some (users !! kicked_by)
  | ChannelParticipantLeft peer => subject_present peer users chats
  | _ => True
  end.

(** ** The dictionary subscripts of [_parse] *)

(** The two side-loaded dictionaries. *)
Inductive Table : Type := UsersTable | ChatsTable.

(** The subscript that resolves the subject of a banned or left record:
    [users[peer_id]] for a user peer, [chats[peer_id]] otherwise. *)
Definition subject_key (peer : Peer) : Table * Z :=
  (if is_PeerUser peer then UsersTable else ChatsTable, get_raw_peer_id peer).

(** The subscripts [users[...]] and [chats[...]] that [_parse] evaluates for
    a record, in the order in which it evaluates them. *)
Definition lookups (member : Participant) : list (Table * Z) :=
  match member with
  | ChatParticipant user_id inviter_id _ =>
      [(UsersTable, user_id); (UsersTable, inviter_id)]
  | ChatParticipantAdmin user_id inviter_id _ =>
      [(UsersTable, user_id); (UsersTable, inviter_id)]
  | ChatParticipantCreator user_id => [(UsersTable, user_id)]
  | ChannelParticipant user_id _ => [(UsersTable, user_id)]
  | ChannelParticipantAdmin _ user_id inviter_id promoter _ _ _ =>
      (UsersTable, user_id) :: (UsersTable, promoter) ::
      match inviter_id with
      | Some k => if k =? 0 then [] else [(UsersTable, k)]
      | None => []
      end
  | ChannelParticipantBanned _ peer kicked_by _ _ =>
      [subject_key peer; (UsersTable, kicked_by)]
  | ChannelParticipantCreator user_id _ _ => [(UsersTable, user_id)]
  | ChannelParticipantLeft peer => [subject_key peer]
  | ChannelParticipantSelf user_id inviter_id _ =>
      [(UsersTable, user_id); (UsersTable, inviter_id)]
  | OtherObject _ => []
  end.

(** [key in table] *)
Definition table_has (users : gmap Z RawUser) (chats : gmap Z RawChat)
    (tk : Table * Z) : bool :=
  match tk.1 with
  | UsersTable => bool_decide (is_Some (users !! tk.2))
  | ChatsTable => bool_decide (is_Some (chats !! tk.2))
  end.

(** The key of the first subscript of a list that is not in its table. *)
Fixpoint first_missing (users : gmap Z RawUser) (chats : gmap Z RawChat)
    (l : list (Table * Z)) : option Z :=
  match l with
  | [] => None
  | tk :: rest =>
      if table_has users chats tk then first_missing users chats rest
      else Some tk.2
  end.

(** The statuses of a restricted or banned member. *)
Definition is_restriction (s : ChatMemberStatus) : Prop :=
  s = RESTRICTED \/ s = BANNED.

End parse.
End ChatMember.

(** * forward_messages *)

Module ForwardMessages.
Section forward.
Context `{Collaborators}.

(** [raw.base.Update]: the three kinds that carry a newly created message,
    two of the many that do not, and any other kind by its class name. *)
Inductive Update : Type :=
| UpdateNewMessage (message : RawMessage) (pts pts_count : Z)
| UpdateNewChannelMessage (message : RawMessage) (pts pts_count : Z)
| UpdateNewScheduledMessage (message : RawMessage)
| UpdateMessageID (id random_id : Z)
| UpdateReadHistoryOutbox (peer : Peer) (max_id pts pts_count : Z)
| UpdateOther (class_name : string).

(** [raw.functions.messages.ForwardMessages(...)] *)
Record ForwardMessagesRequest : Type := {
  to_peer : InputPeer;
  from_peer : InputPeer;
  id : list Z;
  top_msg_id : option Z;
  silent : option bool;
  random_id : list Z;
  schedule_date : option Z;
  noforwards : option bool;
}.

(** [raw.base.Updates], the gateway's answer. *)
Record Updates : Type := {
  updates : list Update;
  users : list RawUser;
  chats : list RawChat;
}.

(** The part of [hydrogram.Client] the method uses.  [rnd_id n] is the value
    of the [n]-th call of [self.rnd_id()] during this request. *)
Record Client : Type := {
  resolve_peer : ChatId -> InputPeer;
  invoke : ForwardMessagesRequest -> Updates;
  rnd_id : nat -> Z;
}.

(** [message_ids: Union[int, Iterable[int]]] *)
Inductive MessageIds : Type :=
| SingleId (message_id : Z)
| IterableIds (message_ids : list Z).

(** The return value: a [types.Message] or a [types.List] of them. *)
Inductive Forwarded : Type :=
| OneMessage (m : Message)
| MessageList (l : list Message).

(** [isinstance(message_ids, int)] *)
Definition isinstance_int (message_ids : MessageIds) : bool :=
  match message_ids with
  | SingleId _ => true
  | IterableIds _ => false
  end.

(** [{i.id: i for i in l}]: later entries replace earlier ones. *)
Definition dict_by_id {V : Type} (key : V -> Z) (l : list V) : gmap Z V :=
  foldl (fun d i => <[key i := i]> d) ∅ l.

(** [isinstance(i, (UpdateNewMessage, UpdateNewChannelMessage,
    UpdateNewScheduledMessage))] *)
Definition is_new_message (i : Update) : bool :=
  match i with
  | UpdateNewMessage _ _ _ => true
  | UpdateNewChannelMessage _ _ _ => true
  | UpdateNewScheduledMessage _ => true
  | _ => false
  end.

(** [i.message]; only the three kinds above have the attribute. *)
Definition update_message (i : Update) : option RawMessage :=
  match i with
  | UpdateNewMessage m _ _ => Some m
  | UpdateNewChannelMessage m _ _ => Some m
  | UpdateNewScheduledMessage m => Some m
  | _ => None
  end.

(** [[await Message._parse(self, i.message, users, chats)
      for i in r.updates if isinstance(i, (...))]] *)
Fixpoint parse_new_messages (users : gmap Z RawUser) (chats : gmap Z RawChat)
    (l : list Update) : list Message :=
  match l with
  | [] => []
  | (UpdateNewMessage m _ _ | UpdateNewChannelMessage m _ _
     | UpdateNewScheduledMessage m) :: rest =>
      Message_parse m users chats :: parse_new_messages users chats rest
  | _ :: rest => parse_new_messages users chats rest
  end.

(** [list(message_ids) if is_iterable else [message_ids]] *)
Definition id_list (message_ids : MessageIds) : list Z :=
  match message_ids with
  | IterableIds l => l
  | SingleId i => [i]
  end.

(** [x or None] on an optional boolean. *)
Definition or_None (x : option bool) : option bool :=
  match x with
  | Some true => Some true
  | _ => None
  end.

(** The request sent to the gateway. *)
Definition forward_request (self : Client) (chat_id from_chat_id : ChatId)
    (message_ids : MessageIds) (message_thread_id : option Z)
    (disable_notification : option bool) (schedule : option Datetime)
    (protect_content : option bool) : ForwardMessagesRequest :=
  let ids := id_list message_ids in
  {| to_peer := resolve_peer self chat_id;
     from_peer := resolve_peer self from_chat_id;
     id := ids;
     top_msg_id := message_thread_id;
     silent := or_None disable_notification;
     random_id := map (rnd_id self) (seq 0 (length ids));
     schedule_date := datetime_to_timestamp schedule;
     noforwards := protect_content |}.

(** [forwarded_messages], the list built from the answer [r]. *)
Definition forwarded_messages (r : Updates) : list Message :=
  let users := dict_by_id raw_user_id (users r) in
  let chats := dict_by_id raw_chat_id (chats r) in
  parse_new_messages users chats (updates r).

(** [Client.forward_messages] *)
Definition forward_messages (self : Client) (chat_id from_chat_id : ChatId)
    (message_ids : MessageIds) (message_thread_id : option Z)
    (disable_notification : option bool) (schedule : option Datetime)
    (protect_content : option bool) : result Forwarded :=
  let is_iterable := negb (isinstance_int message_ids) in
  let r := invoke self
             (forward_request self chat_id from_chat_id message_ids
                message_thread_id disable_notification schedule protect_content) in
  let forwarded := forwarded_messages r in
  if is_iterable
  then Ok (MessageList forwarded)
  else match forwarded with          (* [forwarded_messages[0]] *)
       | m :: _ => Ok (OneMessage m)
       | [] => Raise IndexError
       end.

(** [m] is the parse of the message carried by the update [i]. *)
Definition parsed_from (users : gmap Z RawUser) (chats : gmap Z RawChat)
    (i : Update) (m : Message) : Prop :=
  exists raw, update_message i = Some raw /\ m = Message_parse raw users chats.

End forward.
End ForwardMessages.

(** * get_chat_photos *)

Module GetChatPhotos.
Section photos.
Context `{Collaborators}.

(** The three requests the method sends.  [Search] is always sent with an
    empty query, the chat-photos filter and every date, id and offset at 0,
    so only its peer and limit vary; [GetUserPhotos] with [max_id=0]. *)
Inductive Request : Type :=
| GetFullChannel (channel : InputPeer)
| Search (peer : InputPeer) (limit : Z)
| GetUserPhotos (user_id : InputPeer) (offset max_id limit : Z).

(** The part of [hydrogram.Client] the method uses, each answer already
    passed through the parser the method applies to it:
    [full_chat_photo p] is [Photo._parse(self, r.full_chat.chat_photo)] for
    the answer [r] to [GetFullChannel(p)] ([None] when there is no photo);
    [search_chat_photos p n] is [utils.parse_messages] of the answer to
    [Search(p, n)], each message carrying its new chat photo;
    [user_photos p o n] is [[Photo._parse(self, photo) for photo in r.photos]]
    for the answer [r] to [GetUserPhotos(p, o, 0, n)]. *)
Record Client : Type := {
  resolve_peer : ChatId -> InputPeer;
  full_chat_photo : InputPeer -> option Photo;
  search_chat_photos : InputPeer -> Z -> list Message;
  user_photos : InputPeer -> Z -> Z -> list Photo;
}.

(** What a consumer that drains the generator observes, in order: the
    requests sent to the gateway and the photos yielded. *)
Inductive Event : Type :=
| Invoke (rq : Request)
| Yield (photo : Photo).

Definition yielded (trace : list Event) : list Photo :=
  omap (fun e => match e with Yield photo => Some photo | Invoke _ => None end) trace.

Definition requests (trace : list Event) : list Request :=
  omap (fun e => match e with Invoke rq => Some rq | Yield _ => None end) trace.

(** [isinstance(peer_id, raw.types.InputPeerChannel)] *)
Definition is_InputPeerChannel (peer_id : InputPeer) : bool :=
  match peer_id with
  | InputPeerChannel _ _ => true
  | _ => false
  end.

(** The list [photos] of the channel branch, from [current] (the parsed
    current photo, [None] standing for the empty list it is replaced by) and
    [extra] (the new photo of every search result). *)
Definition merge_photos (current : option Photo) (extra : list Photo) : list Photo :=
  match extra with
  | first :: _ =>
      match current with
      | Some cur =>
          if decide (file_id cur ≠ file_id first) then cur :: extra else extra
      | None => extra
      end
  | [] =>
      match current with
      | Some cur => [cur]
      | None => []
      end
  end.

(** [for current, photo in enumerate(photos, start=1):
       yield photo
       if current >= limit: return] *)
Fixpoint enumerate_yield (limit current : Z) (photos : list Photo) : list Event :=
  match photos with
  | [] => []
  | photo :: rest =>
      Yield photo ::
      (if current >=? limit then [] else enumerate_yield limit (current + 1) rest)
  end.

(** [for photo in photos:
       yield photo
       current += 1
       if current >= total: return]
    The second component is [None] after [return] and the new value of
    [current] when the page is used up. *)
Fixpoint yield_page (total current : Z) (photos : list Photo)
    : list Event * option Z :=
  match photos with
  | [] => ([], Some current)
  | photo :: rest =>
      let current := current + 1 in
      if current >=? total then ([Yield photo], None)
      else let '(evs, c) := yield_page total current rest in (Yield photo :: evs, c)
  end.

(** The [while True] loop of the user branch; [fuel] bounds the number of
    rounds, [None] means the bound was too small. *)
Fixpoint user_loop (fuel : nat) (self : Client) (peer_id : InputPeer)
    (total limit current offset : Z) : option (list Event) :=
  match fuel with
  | O => None
  | S fuel =>
      let rq := Invoke (GetUserPhotos peer_id offset 0 limit) in
      let photos := user_photos self peer_id offset limit in
      match photos with
      | [] => Some [rq]
      | _ :: _ =>
          let offset := offset + Z.of_nat (length photos) in
          match yield_page total current photos with
          | (evs, None) => Some (rq :: evs)
          | (evs, Some current) =>
              rest ← user_loop fuel self peer_id total limit current offset;
              Some (rq :: evs ++ rest)
          end
      end
  end.

(** [limit or (1 << 31)] *)
Definition total_of (limit : Z) : Z :=
  if limit =? 0 then Z.shiftl 1 31 else limit.

(** The list [photos] of the channel branch for a given client. *)
Definition channel_photos (self : Client) (peer_id : InputPeer) (limit : Z)
    : list Photo :=
  let current := full_chat_photo self peer_id in
  let r := search_chat_photos self peer_id limit in
  let extra := map new_chat_photo r in
  merge_photos current extra.

(** [Client.get_chat_photos], drained to the end. *)
Definition get_chat_photos (fuel : nat) (self : Client) (chat_id : ChatId)
    (limit : Z) : option (list Event) :=
  let peer_id := resolve_peer self chat_id in
  if is_InputPeerChannel peer_id then
    let photos := channel_photos self peer_id limit in
    Some (Invoke (GetFullChannel peer_id) :: Invoke (Search peer_id limit) ::
          enumerate_yield limit 1 photos)
  else
    let total := total_of limit in
    let limit := Z.min 100 total in
    user_loop fuel self peer_id total limit 0 0.

(** The traces of a paginated enumeration, round by round, for a request
    total [total] and a page size [page], from [current] photos yielded so
    far and the cursor [offset].  Every round sends one request for [page]
    photos at [offset].  An empty answer ends the enumeration.  Otherwise
    the photos of the answer are yielded in order until the count of yielded
    photos reaches [total], which ends the enumeration; when the answer is
    used up before that, the next round starts with the cursor and the count
    both advanced by the number of photos answered. *)
Inductive pagination (self : Client) (peer_id : InputPeer) (total page : Z)
    : Z -> Z -> list Event -> Prop :=
| round_exhausted current offset :
    user_photos self peer_id offset page = [] ->
    pagination self peer_id total page current offset
      [Invoke (GetUserPhotos peer_id offset 0 page)]
| round_quota current offset photos k :
    user_photos self peer_id offset page = photos ->
    k = Z.max 1 (total - current) ->
    k <= Z.of_nat (length photos) ->
    pagination self peer_id total page current offset
      (Invoke (GetUserPhotos peer_id offset 0 page) ::
       map Yield (take (Z.to_nat k) photos))
| round_more current offset photos rest :
    user_photos self peer_id offset page = photos ->
    photos <> [] ->
    current + Z.of_nat (length photos) < total ->
    pagination self peer_id total page
      (current + Z.of_nat (length photos)) (offset + Z.of_nat (length photos)) rest ->
    pagination self peer_id total page current offset
      (Invoke (GetUserPhotos peer_id offset 0 page) :: map Yield photos ++ rest).

(** The photos a user-photos request is answered with. *)
Definition answer (self : Client) (rq : Request) : list Photo :=
  match rq with
  | GetUserPhotos user_id offset _ limit => user_photos self user_id offset limit
  | _ => []
  end.

End photos.
End GetChatPhotos.

(** * Literal fixtures

    A small concrete choice of the collaborators, for statements evaluated
    on literal inputs. *)

Module Fixture.

(** Raw and parsed users and chats are an id with a name; a raw user with
    the empty name stands for [raw.types.UserEmpty], of which [User._parse]
    makes [None].  A photo is a file id with a date; a message is its id
    with the photo it announces. *)
Definition collaborators : Collaborators := {|
  RawUser := Z * string;
  RawChat := Z * string;
  RawMessage := Z * (string * Z);
  ChatAdminRights := bool;
  ChatBannedRights := bool * Z;
  User := Z * string;
  Chat := Z * string;
  Message := Z * (string * Z);
  Photo := string * Z;
  Datetime := Z;
  ChatPrivileges := bool;
  ChatPermissions := bool;
  raw_user_id := fst;
  raw_chat_id := fst;
  view_messages := fst;
  rights_until_date := snd;
  file_id := fst;
  new_chat_photo := snd;
  get_raw_peer_id := fun peer =>
    match peer with
    | PeerUser i => i
    | PeerChat i => i
    | PeerChannel i => i
    end;
  timestamp_to_datetime := fun ts => if ts =? 0 then None else Some ts;
  datetime_to_timestamp := fun d => d;
  User_parse := fun u =>
    match u.2 with
    | EmptyString => None
    | String _ _ => Some u
    end;
  Chat_parse_chat := fun c => c;
  ChatPrivileges_parse := fun r => r;
  ChatPermissions_parse := fun r => negb (fst r);
  Message_parse := fun m _ _ => m;
|}.

(** A gateway whose user-photos request serves slices of a backing store. *)
Definition store_client (store : list (string * Z))
    : @GetChatPhotos.Client collaborators :=
  @GetChatPhotos.Build_Client collaborators
    (fun _ => InputPeerUser 1 0)
    (fun _ => None)
    (fun _ _ => [])
    (fun _ offset limit => take (Z.to_nat limit) (drop (Z.to_nat offset) store)).

(** A channel with a current photo and a fixed list of photo changes. *)
Definition channel_client (current : option (string * Z))
    (changes : list (Z * (string * Z))) : @GetChatPhotos.Client collaborators :=
  @GetChatPhotos.Build_Client collaborators
    (fun _ => InputPeerChannel 1 0)
    (fun _ => current)
    (fun _ _ => changes)
    (fun _ _ _ => []).

(** A store of [n] photos, told apart by their date. *)
Definition numbered_photos (n : nat) : list (string * Z) :=
  map (fun i => ("photo"%string, Z.of_nat i)) (seq 0 n).

(** A gateway that answers every forward request with the same updates. *)
Definition forward_client (l : list (@ForwardMessages.Update collaborators))
    : @ForwardMessages.Client collaborators :=
  @ForwardMessages.Build_Client collaborators
    (fun _ => InputPeerSelf)
    (fun _ => @ForwardMessages.Build_Updates collaborators l [] [])
    (fun n => Z.of_nat n).

(** Side-loaded tables: users 1 and 7 (no user 0), channel 55. *)
Definition users : gmap Z (Z * string) :=
  <[7 := (7, "ann"%string)]> (<[1 := (1, "root"%string)]> ∅).

Definition chats : gmap Z (Z * string) :=
  <[55 := (55, "news"%string)]> ∅.

(** The users table with an empty user 4 added. *)
Definition users_with_empty : gmap Z (Z * string) :=
  <[4 := (4, EmptyString)]> users.

(** Three photos; [X'] has the file id of [X] and another date. *)
Definition X : string * Z := ("x"%string, 30).
Definition X' : string * Z := ("x"%string, 31).
Definition Y : string * Z := ("y"%string, 20).
Definition Z' : string * Z := ("z"%string, 10).

(** The answer of the scenario: a new message, a read-state update, a new
    channel message. *)
Definition two_new_one_read : list (@ForwardMessages.Update collaborators) :=
  [@ForwardMessages.UpdateNewMessage collaborators (101, X) 1 1;
   @ForwardMessages.UpdateReadHistoryOutbox collaborators (PeerUser 20) 3 2 1;
   @ForwardMessages.UpdateNewChannelMessage collaborators (102, Y) 3 1].

(** An answer without any new message. *)
Definition only_read : list (@ForwardMessages.Update collaborators) :=
  [@ForwardMessages.UpdateReadHistoryOutbox collaborators (PeerUser 20) 3 2 1].

End Fixture.

(** * Dictionary lookups *)

Lemma getitem_Some {V : Type} (d : gmap Z V) (k : Z) (v : V) :
  d !! k = Some v -> getitem d k = Ok v.
Proof. intros Hk. unfold getitem. by rewrite Hk. Qed.

Lemma getitem_None {V : Type} (d : gmap Z V) (k : Z) :
  d !! k = None -> getitem d k = Raise (KeyError k).
Proof. intros Hk. unfold getitem. by rewrite Hk. Qed.

Lemma getitem_Ok_inv {V : Type} (d : gmap Z V) (k : Z) (v : V) :
  getitem d k = Ok v -> d !! k = Some v.
Proof. unfold getitem. destruct (d !! k); congruence. Qed.

(** * Properties of ChatMember._parse *)

Module ChatMemberProofs.
Import ChatMember.
Section parse.
Context `{Collaborators}.

Lemma subject_resolved_not_both peer users chats cm :
  subject_resolved peer users chats cm ->
  ~ (is_Some (user cm) /\ is_Some (chat cm)).
Proof.
  unfold subject_resolved.
  destruct peer; intros [_ Hnone] [[u Hu] [c Hc]]; congruence.
Qed.

Ltac lookup_hit H :=
  match type of H with
  | ?d !! ?k = Some ?v => rewrite (getitem_Some d k v H); cbn
  end.

(** Every result of a banned record comes from successful lookups. *)
Lemma _parse_banned_Ok_inv has_left peer kicked_by date rights users chats r :
  _parse (ChannelParticipantBanned has_left peer kicked_by date rights) users chats = Ok r ->
  subject_present peer users chats /\ is_Some (users !! kicked_by).
Proof.
  unfold _parse, subject_present, getitem.
  destruct (is_PeerUser peer); cbn.
  - destruct (users !! get_raw_peer_id peer); cbn; [|discriminate].
    destruct (users !! kicked_by); cbn; [eauto|discriminate].
  - destruct (chats !! get_raw_peer_id peer); cbn; [|discriminate].
    destruct (users !! kicked_by); cbn; [eauto|discriminate].
Qed.

Lemma _parse_left_Ok_inv peer users chats r :
  _parse (ChannelParticipantLeft peer) users chats = Ok r ->
  subject_present peer users chats.
Proof.
  unfold _parse, subject_present, getitem.
  destruct (is_PeerUser peer); cbn.
  - destruct (users !! get_raw_peer_id peer); cbn; [eauto|discriminate].
  - destruct (chats !! get_raw_peer_id peer); cbn; [eauto|discriminate].
Qed.

(** A missing restricter is reported as the missing key. *)
Lemma _parse_banned_kicked_by_missing has_left peer kicked_by date rights users chats :
  subject_present peer users chats ->
  users !! kicked_by = None ->
  _parse (ChannelParticipantBanned has_left peer kicked_by date rights) users chats
  = Raise (KeyError kicked_by).
Proof.
  unfold _parse, subject_present, getitem.
  destruct (is_PeerUser peer); cbn; intros [x Hx] Hk; rewrite Hx; cbn; by rewrite Hk.
Qed.

(** C6: a banned record is mapped to status BANNED when its restriction set
    forbids viewing messages and to RESTRICTED otherwise, and [is_member] is
    the negation of the record's [left] flag.  The side-loaded tables hold
    the ids the record refers to (a miss is the KeyError of
    [_parse_banned_Ok_inv] and [_parse_banned_kicked_by_missing]). *)
Theorem _parse_banned_status has_left peer kicked_by date rights users chats :
  subject_present peer users chats ->
  is_Some (users !! kicked_by) ->
  exists cm,
    _parse (ChannelParticipantBanned has_left peer kicked_by date rights) users chats
    = Ok (Some cm) /\
    status cm = (if view_messages rights then BANNED else RESTRICTED) /\
    is_member cm = Some (negb has_left).
Proof.
  unfold subject_present, _parse.
  destruct (is_PeerUser peer); intros [x Hx] [k Hk];
    lookup_hit Hx; lookup_hit Hk; eexists; (split; [reflexivity|]); cbn; auto.
Qed.

(** C7, amended: for a banned and for a left record the peer kind decides
    which of [user] and [chat] is set.  For a user peer [chat] is absent and
    [user] is what [User._parse] makes of the entry of the users table
    (absent when that entry is an empty user); for a chat or channel peer
    [chat] is set from the chats table and [user] is absent; the two are
    never set together. *)
Theorem _parse_subject_user_xor_chat member peer users chats :
  member_peer member = Some peer ->
  references_listed member users chats ->
  exists cm,
    _parse member users chats = Ok (Some cm) /\
    match peer with
    | PeerUser _ =>
        (exists u, users !! get_raw_peer_id peer = Some u /\
                   user cm = User_parse u) /\ chat cm = None
    | PeerChat _ | PeerChannel _ =>
        (exists c, chats !! get_raw_peer_id peer = Some c /\
                   chat cm = Some (Chat_parse_chat c)) /\ user cm = None
    end /\
    ~ (is_Some (user cm) /\ is_Some (chat cm)).
Proof.
  intros Hpeer Htab.
  assert (exists cm, _parse member users chats = Ok (Some cm) /\
                     subject_resolved peer users chats cm) as (cm & Hcm & Hres).
  { destruct member; try discriminate; injection Hpeer as ->;
      revert Htab; unfold references_listed, subject_listed, subject_resolved, _parse.
    - destruct peer; cbn [is_PeerUser]; intros [[x Hx] [k Hk]];
        lookup_hit Hx; lookup_hit Hk; eexists; (split; [reflexivity|]); cbn; eauto.
    - destruct peer; cbn [is_PeerUser]; intros [x Hx];
        lookup_hit Hx; eexists; (split; [reflexivity|]); cbn; eauto. }
  exists cm. split; [exact Hcm|]. split; [exact Hres|].
  by eapply subject_resolved_not_both.
Qed.

(** What is returned at all obeys the same rule: the tables were complete. *)
Lemma _parse_Ok_tables_complete member peer users chats r :
  member_peer member = Some peer ->
  _parse member users chats = Ok r ->
  tables_complete member users chats.
Proof.
  intros Hpeer Hr. destruct member; try discriminate; cbn.
  - eapply _parse_banned_Ok_inv, Hr.
  - eapply _parse_left_Ok_inv, Hr.
Qed.

(** C8: an administrator record whose inviter id is absent or zero gets no
    [invited_by], and the users table is not asked for the inviter: the
    entries of the member and of the promoter alone decide the outcome.
    [invited_by] is set only from a nonzero inviter id, as what
    [User._parse] makes of the inviter's entry. *)
Theorem _parse_admin_invited_by
    can_edit user_id inviter_id promoter date rights rank users chats :
  is_Some (users !! user_id) ->
  is_Some (users !! promoter) ->
  let member :=
    ChannelParticipantAdmin can_edit user_id inviter_id promoter date rights rank in
  (inviter_id = None \/ inviter_id = Some 0 ->
     (exists cm, _parse member users chats = Ok (Some cm) /\ invited_by cm = None) /\
     (forall users' chats',
        users' !! user_id = users !! user_id ->
        users' !! promoter = users !! promoter ->
        _parse member users' chats' = _parse member users chats)) /\
  (forall cm,
     _parse member users chats = Ok (Some cm) ->
     is_Some (invited_by cm) ->
     exists k raw, inviter_id = Some k /\ k <> 0 /\
       users !! k = Some raw /\ invited_by cm = User_parse raw).
Proof.
  intros [u Hu] [p Hp] member. subst member. split.
  - intros Hfalsy. split.
    + unfold _parse. lookup_hit Hu. lookup_hit Hp.
      destruct Hfalsy as [-> | ->]; cbn; eexists; (split; [reflexivity|]); reflexivity.
    + intros users' chats' Hu' Hp'. unfold _parse, getitem.
      rewrite Hu', Hp'. destruct Hfalsy as [-> | ->]; reflexivity.
  - intros cm. unfold _parse. lookup_hit Hu. lookup_hit Hp.
    destruct inviter_id as [k|]; cbn.
    + destruct (Z.eqb_spec k 0) as [->|Hk]; cbn.
      * intros [= <-] [x Hx]. discriminate.
      * unfold getitem. destruct (users !! k) as [raw|] eqn:Hraw; cbn; [|discriminate].
        intros [= <-] _. cbn. eauto 10.
    + intros [= <-] [x Hx]. discriminate.
Qed.

(** C9: an object that is none of the nine participant classes falls
    through every [isinstance] test to [return None]; nothing is looked up,
    so no table content can make it raise. *)
Theorem _parse_unrecognized class_name users chats :
  _parse (OtherObject class_name) users chats = Ok None.
Proof. reflexivity. Qed.

(** Conversely the nine known variants never produce [None]. *)
Lemma _parse_None_inv member users chats :
  _parse member users chats = Ok None -> exists class_name, member = OtherObject class_name.
Proof.
  destruct member; cbn; try (eexists; reflexivity);
    unfold getitem;
    repeat match goal with
    | |- context [?d !! ?k] => destruct (d !! k); cbn; try discriminate
    | |- context [is_PeerUser ?p] => destruct (is_PeerUser p); cbn
    | |- context [match ?o with Some _ => _ | None => _ end] => destruct o; cbn
    | |- context [?k =? 0] => destruct (k =? 0); cbn
    end; discriminate.
Qed.

End parse.

(** The two branches of the banned status on literal records. *)
Example _parse_banned_fixture :
  @_parse Fixture.collaborators
    (@ChannelParticipantBanned Fixture.collaborators true (PeerUser 7) 1 1700000000 (true, 0))
    Fixture.users Fixture.chats
  = Ok (Some (@Build_t Fixture.collaborators
                BANNED                         (* status *)
                (Some (7, "ann"%string)) None  (* user, chat *)
                None None                      (* custom_title, until_date *)
                (Some 1700000000)              (* joined_date *)
                None None                      (* invited_by, promoted_by *)
                (Some (1, "root"%string))      (* restricted_by *)
                (Some false) None              (* is_member, can_be_edited *)
                (Some false) None)).           (* permissions, privileges *)
Proof. reflexivity. Qed.

Example _parse_restricted_fixture :
  @_parse Fixture.collaborators
    (@ChannelParticipantBanned Fixture.collaborators false (PeerChannel 55) 1 1700000000
       (false, 1800000000))
    Fixture.users Fixture.chats
  = Ok (Some (@Build_t Fixture.collaborators
                RESTRICTED                      (* status *)
                None (Some (55, "news"%string)) (* user, chat *)
                None (Some 1800000000)          (* custom_title, until_date *)
                (Some 1700000000)               (* joined_date *)
                None None                       (* invited_by, promoted_by *)
                (Some (1, "root"%string))       (* restricted_by *)
                (Some true) None                (* is_member, can_be_edited *)
                (Some true) None)).             (* permissions, privileges *)
Proof. reflexivity. Qed.

(** A subject missing from its table is a KeyError, not a result. *)
Example _parse_left_missing_chat :
  @_parse Fixture.collaborators
    (@ChannelParticipantLeft Fixture.collaborators (PeerChat 8))
    Fixture.users Fixture.chats
  = Raise (KeyError 8).
Proof. reflexivity. Qed.

(** An empty user as restricter is stored as no restricter. *)
Example _parse_banned_by_empty_user :
  exists cm,
    @_parse Fixture.collaborators
      (@ChannelParticipantBanned Fixture.collaborators true (PeerUser 7) 4 1700000000
         (true, 0))
      Fixture.users_with_empty Fixture.chats = Ok (Some cm) /\
    status cm = BANNED /\ restricted_by cm = None.
Proof. eexists. repeat split. Qed.

Lemma _parse_banned_status_witness :
  exists cm,
    @_parse Fixture.collaborators
      (@ChannelParticipantBanned Fixture.collaborators true (PeerUser 7) 1 1700000000 (true, 0))
      Fixture.users Fixture.chats = Ok (Some cm) /\
    status cm = BANNED /\ is_member cm = Some false.
Proof.
  apply (@_parse_banned_status Fixture.collaborators
           true (PeerUser 7) 1 1700000000 (true, 0) Fixture.users Fixture.chats).
  - exists (7, "ann"%string). reflexivity.
  - exists (1, "root"%string). reflexivity.
Defined.

Lemma _parse_subject_user_xor_chat_witness :
  (exists cm,
     @_parse Fixture.collaborators
       (@ChannelParticipantLeft Fixture.collaborators (PeerUser 7))
       Fixture.users Fixture.chats = Ok (Some cm) /\
     user cm = Some (7, "ann"%string) /\ chat cm = None) /\
  (exists cm,
     @_parse Fixture.collaborators
       (@ChannelParticipantBanned Fixture.collaborators false (PeerChannel 55) 1 1700000000
          (false, 1800000000))
       Fixture.users Fixture.chats = Ok (Some cm) /\
     chat cm = Some (55, "news"%string) /\ user cm = None).
Proof.
  split.
  - destruct (@_parse_subject_user_xor_chat Fixture.collaborators
                (@ChannelParticipantLeft Fixture.collaborators (PeerUser 7))
                (PeerUser 7) Fixture.users Fixture.chats eq_refl)
      as (cm & Hcm & [(u & Hu & Huser) Hchat] & _).
    { exists (7, "ann"%string). reflexivity. }
    exists cm. split; [exact Hcm|]. split; [|exact Hchat].
    vm_compute in Hu. injection Hu as <-. exact Huser.
  - destruct (@_parse_subject_user_xor_chat Fixture.collaborators
                (@ChannelParticipantBanned Fixture.collaborators false (PeerChannel 55)
                   1 1700000000 (false, 1800000000))
                (PeerChannel 55) Fixture.users Fixture.chats eq_refl)
      as (cm & Hcm & [(c & Hc & Hchat) Huser] & _).
    { split; [exists (55, "news"%string)|exists (1, "root"%string)]; reflexivity. }
    exists cm. split; [exact Hcm|]. split; [|exact Huser].
    vm_compute in Hc. injection Hc as <-. exact Hchat.
Defined.

(** A user peer does not always give a user: the entry of a left member
    in the users table may be an empty user, and then the result has
    neither [user] nor [chat]. *)
Lemma _parse_subject_user_xor_chat_counterexample :
  exists cm,
    @_parse Fixture.collaborators
      (@ChannelParticipantLeft Fixture.collaborators (PeerUser 4))
      Fixture.users_with_empty Fixture.chats = Ok (Some cm) /\
    ~ is_Some (user cm) /\ ~ is_Some (chat cm).
Proof.
  eexists. split; [reflexivity|]. split; intros [x Hx]; discriminate.
Qed.

Lemma _parse_admin_invited_by_witness :
  Fixture.users !! 0 = None /\
  exists cm,
    @_parse Fixture.collaborators
      (@ChannelParticipantAdmin Fixture.collaborators true 7 (Some 0) 1 1700000000 true None)
      Fixture.users Fixture.chats = Ok (Some cm) /\
    invited_by cm = None.
Proof.
  split; [reflexivity|].
  apply (@_parse_admin_invited_by Fixture.collaborators
           true 7 (Some 0) 1 1700000000 true None Fixture.users Fixture.chats).
  - exists (7, "ann"%string). reflexivity.
  - exists (1, "root"%string). reflexivity.
  - right. reflexivity.
Defined.

(** ** Errors, dependencies and invariants of the results *)

Section more.
Context `{Collaborators}.

Lemma table_has_users users chats k :
  table_has users chats (UsersTable, k) = true <-> is_Some (users !! k).
Proof. unfold table_has. cbn. apply bool_decide_eq_true. Qed.

Lemma getitem_case {V : Type} (d : gmap Z V) (k : Z) :
  (exists v, d !! k = Some v /\ getitem d k = Ok v /\ bool_decide (is_Some (d !! k)) = true) \/
  (d !! k = None /\ getitem d k = Raise (KeyError k) /\
   bool_decide (is_Some (d !! k)) = false).
Proof.
  unfold getitem. destruct (d !! k) as [v|] eqn:Hk.
  - left. exists v. repeat split.
  - right. repeat split.
Qed.

(** Case analysis on every subscript of the goal. *)
Ltac subscripts :=
  repeat match goal with
  | |- context [getitem ?d ?k] =>
      destruct (getitem_case d k) as [(? & ? & -> & ->)|(? & -> & ->)]; cbn
  end.

(** [_parse] against the first missing subscript. *)
Lemma _parse_first_missing member users chats :
  match first_missing users chats (lookups member) with
  | Some k => _parse member users chats = Raise (KeyError k)
  | None => exists r, _parse member users chats = Ok r
  end.
Proof.
  destruct member as [u i d|u i d|u|u d|ce u inv p d ar rk|lf peer k d br
                     |u ar rk|peer|u i d|name];
    unfold _parse, lookups, subject_key, first_missing, table_has;
    cbn [fst snd].
  1-4, 7, 9-10: subscripts; eauto.
  - destruct inv as [k|]; [destruct (k =? 0)|]; subscripts; eauto.
  - destruct (is_PeerUser peer); subscripts; eauto.
  - destruct (is_PeerUser peer); subscripts; eauto.
Qed.

Lemma first_missing_None users chats (l : list (Table * Z)) :
  first_missing users chats l = None <->
  (forall tk, In tk l -> table_has users chats tk = true).
Proof.
  induction l as [|tk l IH]; cbn; [by split|].
  destruct (table_has users chats tk) eqn:Htk; split.
  - intros Hl tk' [<-|Hin]; [exact Htk|by apply IH].
  - intros Hall. apply IH. eauto.
  - discriminate.
  - intros Hall. specialize (Hall tk (or_introl eq_refl)). congruence.
Qed.

(** The outcome is a function of the entries that are looked up. *)
Lemma _parse_agree member users chats users' chats' :
  (forall k, In (UsersTable, k) (lookups member) -> users' !! k = users !! k) ->
  (forall k, In (ChatsTable, k) (lookups member) -> chats' !! k = chats !! k) ->
  _parse member users' chats' = _parse member users chats.
Proof.
  intros Hu Hc.
  destruct member as [u i d|u i d|u|u d|ce u inv p d ar rk|lf peer k d br
                     |u ar rk|peer|u i d|name];
    unfold _parse, getitem; cbn [lookups] in Hu, Hc; unfold subject_key in Hu, Hc;
    try destruct (is_PeerUser peer);
    try (destruct inv as [k|]; [destruct (k =? 0)|]);
    repeat match goal with
    | |- context [users' !! ?k] => rewrite (Hu k) by (cbn; auto)
    | |- context [chats' !! ?k] => rewrite (Hc k) by (cbn; auto)
    end; reflexivity.
Qed.

(** X1: [_parse] raises only KeyError, for the first missing key in the
    order of evaluation, and it returns exactly when no subscript it
    evaluates is missing. *)
Theorem _parse_KeyError member users chats :
  (forall e, _parse member users chats = Raise e ->
     exists k, e = KeyError k /\
       first_missing users chats (lookups member) = Some k) /\
  ((exists r, _parse member users chats = Ok r) <->
   first_missing users chats (lookups member) = None).
Proof.
  pose proof (_parse_first_missing member users chats) as Hfm.
  destruct (first_missing users chats (lookups member)) as [k|].
  - split.
    + intros e He. exists k. split; congruence.
    + split; [intros [r Hr]; congruence|discriminate].
  - destruct Hfm as [r Hr]. split.
    + intros e He. congruence.
    + split; eauto.
Qed.

(** X2: [_parse] reads its tables only at the subscripts of the record:
    tables that agree there give the same outcome, error included.  So the
    chats table is never read for a record without a peer. *)
Theorem _parse_reads_only_lookups member users chats users' chats' :
  ((forall k, In (UsersTable, k) (lookups member) -> users' !! k = users !! k) ->
   (forall k, In (ChatsTable, k) (lookups member) -> chats' !! k = chats !! k) ->
   _parse member users' chats' = _parse member users chats) /\
  (member_peer member = None ->
   _parse member users chats' = _parse member users chats).
Proof.
  split; [apply _parse_agree|].
  intros Hpeer. apply _parse_agree; [reflexivity|].
  intros k Hin. exfalso.
  destruct member; try discriminate; cbn in Hin;
    repeat match type of Hin with
    | _ \/ _ => destruct Hin as [Hin|Hin]
    | _ = _ => discriminate Hin
    | False => exact Hin
    | In _ (match ?o with Some _ => _ | None => _ end) => destruct o; cbn in Hin
    | In _ (if ?b then _ else _) => destruct b; cbn in Hin
    end.
Qed.

(** X3: a result is kept when entries are added to the tables. *)
Theorem _parse_tables_weaken member users chats users' chats' r :
  users ⊆ users' -> chats ⊆ chats' ->
  _parse member users chats = Ok r ->
  _parse member users' chats' = Ok r.
Proof.
  intros Hu Hc Hr. rewrite <- Hr. apply _parse_agree.
  - intros k Hin.
    pose proof (_parse_first_missing member users chats) as Hfm.
    destruct (first_missing users chats (lookups member)) eqn:Hmiss; [congruence|].
    pose proof (proj1 (first_missing_None _ _ _) Hmiss _ Hin) as Hhas.
    apply bool_decide_eq_true in Hhas as [v Hv]. cbn in Hv.
    rewrite Hv. by eapply lookup_weaken.
  - intros k Hin.
    pose proof (_parse_first_missing member users chats) as Hfm.
    destruct (first_missing users chats (lookups member)) eqn:Hmiss; [congruence|].
    pose proof (proj1 (first_missing_None _ _ _) Hmiss _ Hin) as Hhas.
    apply bool_decide_eq_true in Hhas as [v Hv]. cbn in Hv.
    rewrite Hv. by eapply lookup_weaken.
Qed.

(** From a result back to the record: every subscript succeeded. *)
Ltac parse_inv Hr :=
  unfold _parse, getitem in Hr; cbn in Hr; try discriminate Hr;
  repeat match type of Hr with
  | context [is_PeerUser ?p] => destruct (is_PeerUser p) eqn:?; cbn in Hr
  | context [match ?o with Some _ => _ | None => _ end] =>
      destruct o eqn:?; cbn in Hr; try discriminate Hr
  | context [?k =? 0] => destruct (k =? 0) eqn:?; cbn in Hr
  end;
  unfold mret, result_ret in Hr; try discriminate Hr; injection Hr as <-; cbn.

Ltac not_Some :=
  repeat match goal with
  | H : is_Some None |- _ => destruct H as [? ?]; discriminate
  | H : is_restriction _ |- _ => destruct H; discriminate
  | H : _ \/ _ |- _ => destruct H
  end; try discriminate.

(** X4: no record that is parsed has both [user] and [chat].  [chat] is set
    only for a banned or left record whose peer is not a user, and then
    [user] is absent; when [chat] is absent, [user] is what [User._parse]
    makes of the first entry the record looks up in the users table. *)
Theorem _parse_user_xor_chat member users chats cm :
  _parse member users chats = Ok (Some cm) ->
  ~ (is_Some (user cm) /\ is_Some (chat cm)) /\
  (is_Some (chat cm) ->
   user cm = None /\
   exists peer, member_peer member = Some peer /\ forall id, peer <> PeerUser id) /\
  (chat cm = None ->
   exists k raw, head (lookups member) = Some (UsersTable, k) /\
     users !! k = Some raw /\ user cm = User_parse raw).
Proof.
  intros Hr.
  destruct member as [u i d|u i d|u|u d|ce u inv p d ar rk|lf peer k d br
                     |u ar rk|peer|u i d|name];
    parse_inv Hr; unfold subject_key;
    try match goal with
    | Hp : is_PeerUser _ = _ |- _ => rewrite ?Hp
    end;
    (split; [intros [[? ?] [? ?]]; discriminate|]);
    (split; [intros Hchat; not_Some|intros Hchat; try discriminate; cbn; eauto]).
  all: split; [reflexivity|]; exists peer; (split; [reflexivity|]);
    intros id ->;
    match goal with
    | Hp : is_PeerUser _ = false |- _ => cbn in Hp; discriminate Hp
    end.
Qed.

(** X5: the optional fields go with the status, as the class documents
    them: an owner has no join date and no inviter; [until_date] and
    [restricted_by] are set only for restricted and banned members,
    [is_member] and [permissions] exactly for them; [promoted_by] and
    [can_be_edited] only for administrators; [custom_title] and
    [privileges] only for administrators and owners; a member that left
    has the subject alone. *)
Theorem _parse_fields_by_status member users chats cm :
  _parse member users chats = Ok (Some cm) ->
  (status cm = OWNER -> joined_date cm = None /\ invited_by cm = None) /\
  (is_Some (until_date cm) -> is_restriction (status cm)) /\
  (is_Some (restricted_by cm) -> is_restriction (status cm)) /\
  (is_Some (is_member cm) <-> is_restriction (status cm)) /\
  (is_Some (permissions cm) <-> is_restriction (status cm)) /\
  (is_Some (promoted_by cm) -> status cm = ADMINISTRATOR) /\
  (is_Some (can_be_edited cm) -> status cm = ADMINISTRATOR) /\
  (is_Some (custom_title cm) -> status cm = ADMINISTRATOR \/ status cm = OWNER) /\
  (is_Some (privileges cm) -> status cm = ADMINISTRATOR \/ status cm = OWNER) /\
  (status cm = LEFT ->
     custom_title cm = None /\ until_date cm = None /\ joined_date cm = None /\
     invited_by cm = None /\ promoted_by cm = None /\ restricted_by cm = None /\
     is_member cm = None /\ can_be_edited cm = None /\
     permissions cm = None /\ privileges cm = None).
Proof.
  intros Hr.
  destruct member as [u i d|u i d|u|u d|ce u inv p d ar rk|lf peer k d br
                     |u ar rk|peer|u i d|name];
    parse_inv Hr; unfold is_restriction;
    try destruct (view_messages br);
    repeat split; intros; not_Some; eauto.
Qed.

End more.

Lemma _parse_KeyError_witness :
  @_parse Fixture.collaborators
    (@ChatParticipant Fixture.collaborators 7 3 1700000000)
    Fixture.users Fixture.chats = Raise (KeyError 3) /\
  exists k, KeyError 3 = KeyError k /\
    @first_missing Fixture.collaborators Fixture.users Fixture.chats
      (@lookups Fixture.collaborators
         (@ChatParticipant Fixture.collaborators 7 3 1700000000)) = Some k.
Proof.
  split; [reflexivity|].
  apply (proj1 (@_parse_KeyError Fixture.collaborators
                  (@ChatParticipant Fixture.collaborators 7 3 1700000000)
                  Fixture.users Fixture.chats)).
  reflexivity.
Defined.

Lemma _parse_reads_only_lookups_witness :
  @_parse Fixture.collaborators
    (@ChannelParticipantCreator Fixture.collaborators 7 true (Some "boss"%string))
    Fixture.users ∅
  = @_parse Fixture.collaborators
      (@ChannelParticipantCreator Fixture.collaborators 7 true (Some "boss"%string))
      Fixture.users Fixture.chats.
Proof.
  apply (proj2 (@_parse_reads_only_lookups Fixture.collaborators
                  (@ChannelParticipantCreator Fixture.collaborators 7 true
                     (Some "boss"%string))
                  Fixture.users Fixture.chats Fixture.users ∅)).
  reflexivity.
Defined.

Lemma _parse_tables_weaken_witness :
  exists r,
    @_parse Fixture.collaborators
      (@ChannelParticipantLeft Fixture.collaborators (PeerUser 7))
      Fixture.users ∅ = Ok r /\
    @_parse Fixture.collaborators
      (@ChannelParticipantLeft Fixture.collaborators (PeerUser 7))
      (<[9 := (9, "eve"%string)]> Fixture.users) Fixture.chats = Ok r.
Proof.
  eexists. split; [reflexivity|].
  apply (@_parse_tables_weaken Fixture.collaborators
           (@ChannelParticipantLeft Fixture.collaborators (PeerUser 7))
           Fixture.users ∅ (<[9 := (9, "eve"%string)]> Fixture.users) Fixture.chats).
  - apply insert_subseteq. reflexivity.
  - apply map_empty_subseteq.
  - reflexivity.
Defined.

Lemma _parse_user_xor_chat_witness :
  exists cm,
    @_parse Fixture.collaborators
      (@ChannelParticipantBanned Fixture.collaborators false (PeerChannel 55) 1 1700000000
         (false, 1800000000))
      Fixture.users Fixture.chats = Ok (Some cm) /\
    ~ (is_Some (user cm) /\ is_Some (chat cm)) /\
    user cm = None.
Proof.
  eexists. split; [reflexivity|].
  pose proof (@_parse_user_xor_chat Fixture.collaborators
                (@ChannelParticipantBanned Fixture.collaborators false (PeerChannel 55)
                   1 1700000000 (false, 1800000000))
                Fixture.users Fixture.chats _ eq_refl) as (Hxor & Hchat & _).
  split; [exact Hxor|].
  apply Hchat. eexists. reflexivity.
Defined.

Lemma _parse_fields_by_status_witness :
  exists cm,
    @_parse Fixture.collaborators
      (@ChannelParticipantCreator Fixture.collaborators 7 true (Some "boss"%string))
      Fixture.users Fixture.chats = Ok (Some cm) /\
    status cm = OWNER /\ joined_date cm = None /\ invited_by cm = None.
Proof.
  eexists. split; [reflexivity|]. split; [reflexivity|].
  eapply (proj1 (@_parse_fields_by_status Fixture.collaborators
                   (@ChannelParticipantCreator Fixture.collaborators 7 true
                      (Some "boss"%string))
                   Fixture.users Fixture.chats _ eq_refl)).
  reflexivity.
Defined.

End ChatMemberProofs.

(** * Properties of forward_messages *)

Module ForwardMessagesProofs.
Import ForwardMessages.
Section forward.
Context `{Collaborators}.

(** The comprehension keeps the updates of the three kinds, in order. *)
Lemma parse_new_messages_kept users chats (l : list Update) :
  Forall2 (parsed_from users chats)
    (List.filter is_new_message l) (parse_new_messages users chats l).
Proof.
  induction l as [|i l IH]; [constructor|].
  destruct i; cbn; try exact IH; (constructor; [|exact IH]); eexists; eauto.
Qed.

Lemma parse_new_messages_length users chats (l : list Update) :
  length (parse_new_messages users chats l) = length (List.filter is_new_message l).
Proof. symmetry. eapply Forall2_length, parse_new_messages_kept. Qed.

Lemma parse_new_messages_nil users chats (l : list Update) :
  parse_new_messages users chats l = [] <->
  Forall (fun i => is_new_message i = false) l.
Proof.
  induction l as [|i l IH]; [by split; [constructor|]|].
  split.
  - intros Hnil. destruct i; cbn in Hnil; try discriminate;
      (constructor; [reflexivity|by apply IH]).
  - intros Hall. inversion Hall as [|? ? Hi Hl]; subst.
    destruct i; try discriminate; cbn; by apply IH.
Qed.

Lemma filter_new_messages_nil (l : list Update) :
  List.filter is_new_message l = [] <->
  Forall (fun i => is_new_message i = false) l.
Proof.
  induction l as [|i l IH]; [by split; [constructor|]|]. cbn.
  destruct (is_new_message i) eqn:Hi; split.
  - discriminate.
  - intros Hall. inversion Hall; congruence.
  - intros Hnil. constructor; [exact Hi|by apply IH].
  - intros Hall. inversion Hall; by apply IH.
Qed.

(** C10: with a single integer for [message_ids] and no update of the three
    new-message kinds in the answer, [forwarded_messages[0]] raises
    IndexError and no message is returned; and this is the only way the
    scalar call fails. *)
Theorem forward_messages_scalar_IndexError
    self chat_id from_chat_id message_id thread silently schedule protect :
  Forall (fun i => is_new_message i = false)
    (updates (invoke self
       (forward_request self chat_id from_chat_id (SingleId message_id)
          thread silently schedule protect))) <->
  forward_messages self chat_id from_chat_id (SingleId message_id)
    thread silently schedule protect = Raise IndexError.
Proof.
  unfold forward_messages, forwarded_messages. cbn [isinstance_int negb].
  split.
  - intros Hall. by rewrite (proj2 (parse_new_messages_nil _ _ _) Hall).
  - intros Hres. eapply parse_new_messages_nil.
    destruct (parse_new_messages _ _ _) eqn:Hfw; [exact Hfw|discriminate].
Qed.

(** C4: the list built from an answer holds, in the order of the answer,
    the parse of the message of each update that is a new message, a new
    channel message or a new scheduled message, and of no other update; a
    call with an iterable returns that list.  In particular two new-message
    updates and one read-state update give two messages in gateway order. *)
Theorem forward_messages_keeps_new_messages
    self chat_id from_chat_id message_ids thread silently schedule protect :
  let r := invoke self
             (forward_request self chat_id from_chat_id message_ids
                thread silently schedule protect) in
  let users := dict_by_id raw_user_id (users r) in
  let chats := dict_by_id raw_chat_id (chats r) in
  Forall2 (parsed_from users chats)
    (List.filter is_new_message (updates r)) (forwarded_messages r) /\
  (forall ids, message_ids = IterableIds ids ->
     forward_messages self chat_id from_chat_id message_ids
       thread silently schedule protect = Ok (MessageList (forwarded_messages r))) /\
  (forall a b peer max_id pts pts_count,
     is_new_message a = true -> is_new_message b = true ->
     let read_state := UpdateReadHistoryOutbox peer max_id pts pts_count in
     updates r = [a; b; read_state] \/ updates r = [a; read_state; b] \/
     updates r = [read_state; a; b] ->
     exists ma mb, forwarded_messages r = [ma; mb] /\
       parsed_from users chats a ma /\ parsed_from users chats b mb).
Proof.
  intros r users chats.
  assert (Forall2 (parsed_from users chats)
            (List.filter is_new_message (updates r)) (forwarded_messages r)) as Hkept.
  { apply parse_new_messages_kept. }
  split; [exact Hkept|]. split.
  - intros ids ->. reflexivity.
  - intros a b peer max_id pts pts_count Ha Hb read_state Hupd.
    assert (List.filter is_new_message (updates r) = [a; b]) as Hfilter.
    { destruct Hupd as [-> | [-> | ->]]; cbn; rewrite Ha, Hb; reflexivity. }
    rewrite Hfilter in Hkept.
    inversion Hkept as [|? ma ? l1 Hma Hrest]; subst.
    inversion Hrest as [|? mb ? l2 Hmb Hnil]; subst.
    inversion Hnil; subst. eauto.
Qed.

(** C3, amended: an iterable for [message_ids], also one of length one,
    always gives a list; a single integer never gives a list, and gives a
    single message, the first of the kept ones, when the answer holds an
    update of the three new-message kinds. *)
Theorem forward_messages_return_shape
    self chat_id from_chat_id thread silently schedule protect :
  (forall ids, exists l,
     forward_messages self chat_id from_chat_id (IterableIds ids)
       thread silently schedule protect = Ok (MessageList l)) /\
  (forall message_id,
     let r := invoke self
                (forward_request self chat_id from_chat_id (SingleId message_id)
                   thread silently schedule protect) in
     (Exists (fun i => is_new_message i = true) (updates r) ->
      exists m, head (forwarded_messages r) = Some m /\
        forward_messages self chat_id from_chat_id (SingleId message_id)
          thread silently schedule protect = Ok (OneMessage m)) /\
     (forall l,
        forward_messages self chat_id from_chat_id (SingleId message_id)
          thread silently schedule protect <> Ok (MessageList l))).
Proof.
  split.
  - intros ids. eexists. reflexivity.
  - intros message_id r. split.
    + intros Hex. unfold forward_messages. cbn [isinstance_int negb]. fold r.
      destruct (forwarded_messages r) as [|m rest] eqn:Hfw.
      * apply parse_new_messages_nil in Hfw. exfalso.
        induction Hex as [i l Hi|i l _ IH];
          inversion Hfw as [|? ? Hi' Hl]; subst; [congruence|by apply IH].
      * eauto.
    + intros l. unfold forward_messages. cbn [isinstance_int negb].
      destruct (forwarded_messages _); discriminate.
Qed.

End forward.

(** ** Literal gateways *)

Example forward_three_ids_two_messages :
  @forward_messages Fixture.collaborators (Fixture.forward_client Fixture.two_new_one_read)
    (ChatInt 10) (ChatInt 20) (IterableIds [1; 2; 3]) None None None None
  = Ok (@MessageList Fixture.collaborators [(101, Fixture.X); (102, Fixture.Y)]).
Proof. reflexivity. Qed.

Example forward_request_fields :
  @forward_request Fixture.collaborators (Fixture.forward_client Fixture.two_new_one_read)
    (ChatInt 10) (ChatInt 20) (SingleId 5) (Some 9) (Some false) None (Some true)
  = {| to_peer := InputPeerSelf; from_peer := InputPeerSelf;
       id := [5]; top_msg_id := Some 9; silent := None; random_id := [0];
       schedule_date := None; noforwards := Some true |}.
Proof. reflexivity. Qed.

Lemma forward_messages_keeps_new_messages_witness :
  exists ma mb,
    @forward_messages Fixture.collaborators (Fixture.forward_client Fixture.two_new_one_read)
      (ChatInt 10) (ChatInt 20) (IterableIds [1; 2; 3]) None None None None
    = Ok (MessageList [ma; mb]) /\
    ma = (101, Fixture.X) /\ mb = (102, Fixture.Y).
Proof.
  destruct (@forward_messages_keeps_new_messages Fixture.collaborators
              (Fixture.forward_client Fixture.two_new_one_read)
              (ChatInt 10) (ChatInt 20) (IterableIds [1; 2; 3]) None None None None)
    as (_ & Hlist & Hscenario).
  destruct (Hscenario
              (@UpdateNewMessage Fixture.collaborators (101, Fixture.X) 1 1)
              (@UpdateNewChannelMessage Fixture.collaborators (102, Fixture.Y) 3 1)
              (PeerUser 20) 3 2 1 eq_refl eq_refl (or_intror (or_introl eq_refl)))
    as (ma & mb & Hfw & (ra & Hra & Hma) & (rb & Hrb & Hmb)).
  exists ma, mb. rewrite (Hlist _ eq_refl), Hfw.
  injection Hra as <-. injection Hrb as <-. repeat split; assumption.
Defined.

Lemma forward_messages_return_shape_witness :
  Exists (fun i => @is_new_message Fixture.collaborators i = true) Fixture.two_new_one_read /\
  exists m,
    @forward_messages Fixture.collaborators (Fixture.forward_client Fixture.two_new_one_read)
      (ChatInt 10) (ChatInt 20) (SingleId 1) None None None None
    = Ok (OneMessage m).
Proof.
  assert (Exists (fun i => @is_new_message Fixture.collaborators i = true)
            Fixture.two_new_one_read) as Hex by (left; reflexivity).
  split; [exact Hex|].
  destruct (proj1 (proj2 (@forward_messages_return_shape Fixture.collaborators
                            (Fixture.forward_client Fixture.two_new_one_read)
                            (ChatInt 10) (ChatInt 20) None None None None) 1) Hex)
    as (m & _ & Hm).
  exists m. exact Hm.
Defined.

Lemma forward_messages_scalar_IndexError_witness :
  Forall (fun i => @is_new_message Fixture.collaborators i = false) Fixture.only_read /\
  @forward_messages Fixture.collaborators (Fixture.forward_client Fixture.only_read)
    (ChatInt 10) (ChatInt 20) (SingleId 1) None None None None
  = Raise IndexError.
Proof.
  assert (Forall (fun i => @is_new_message Fixture.collaborators i = false) Fixture.only_read)
    as Hall by (repeat constructor).
  split; [exact Hall|].
  apply (proj1 (@forward_messages_scalar_IndexError Fixture.collaborators
                  (Fixture.forward_client Fixture.only_read)
                  (ChatInt 10) (ChatInt 20) 1 None None None None)).
  exact Hall.
Defined.

(** Without the proviso a single integer does not always give a message
    record: a call that is answered without a new message returns none. *)
Lemma forward_messages_return_shape_counterexample :
  ~ (exists m,
       @forward_messages Fixture.collaborators (Fixture.forward_client Fixture.only_read)
         (ChatInt 10) (ChatInt 20) (SingleId 1) None None None None
       = Ok (OneMessage m)).
Proof. intros [m Hm]. vm_compute in Hm. discriminate. Qed.

(** ** The request, the tables and the answer *)

Section more.
Context `{Collaborators}.

(** X6: a single integer is sent as the batch of that one id, and the call
    returns the head of what the call with the one-element list returns,
    or raises IndexError when that list is empty. *)
Theorem forward_messages_scalar_is_head
    self chat_id from_chat_id message_id thread silently schedule protect :
  forward_request self chat_id from_chat_id (SingleId message_id)
    thread silently schedule protect
  = forward_request self chat_id from_chat_id (IterableIds [message_id])
      thread silently schedule protect /\
  forward_messages self chat_id from_chat_id (SingleId message_id)
    thread silently schedule protect
  = match forward_messages self chat_id from_chat_id (IterableIds [message_id])
            thread silently schedule protect with
    | Ok (MessageList (m :: _)) => Ok (OneMessage m)
    | Ok (MessageList []) => Raise IndexError
    | other => other
    end.
Proof.
  split; [reflexivity|].
  unfold forward_messages. cbn [isinstance_int negb].
  change (forward_request self chat_id from_chat_id (SingleId message_id)
            thread silently schedule protect)
    with (forward_request self chat_id from_chat_id (IterableIds [message_id])
            thread silently schedule protect).
  by destruct (forwarded_messages _).
Qed.

(** X7: the request carries the ids as given, one random id per id, the
    [k]-th of them from the [k]-th call of [rnd_id], hence pairwise distinct
    when these calls do not repeat a value; [silent] is set for
    [disable_notification=True] and left unset otherwise, never false. *)
Theorem forward_request_ids
    self chat_id from_chat_id message_ids thread silently schedule protect :
  let rq := forward_request self chat_id from_chat_id message_ids
              thread silently schedule protect in
  id rq = id_list message_ids /\
  length (random_id rq) = length (id rq) /\
  (forall k, (k < length (id rq))%nat -> random_id rq !! k = Some (rnd_id self k)) /\
  ((forall i j, (i < length (id rq))%nat -> (j < length (id rq))%nat ->
      rnd_id self i = rnd_id self j -> i = j) ->
   NoDup (random_id rq)) /\
  silent rq <> Some false /\
  (silent rq = Some true <-> silently = Some true).
Proof.
  intros rq. subst rq. cbn [forward_request id random_id silent].
  split; [reflexivity|]. split; [by rewrite length_map, length_seq|].
  split; [|split; [|split]].
  - intros k Hk. change (map ?f ?l) with (f <$> l).
    rewrite list_lookup_fmap, lookup_seq_lt by exact Hk. reflexivity.
  - intros Hinj. change (map ?f ?l) with (f <$> l).
    apply NoDup_fmap_2_strong; [|apply NoDup_seq].
    intros i j Hi Hj. apply Hinj.
    + apply elem_of_seq in Hi. lia.
    + apply elem_of_seq in Hj. lia.
  - by destruct silently as [[|]|].
  - destruct silently as [[|]|]; cbn; split; congruence.
Qed.

(** The dictionary comprehension, from any starting dictionary. *)
Lemma foldl_insert_lookup {V : Type} (key : V -> Z) (l : list V) (d : gmap Z V) k :
  foldl (fun d i => <[key i := i]> d) d l !! k
  = match last (List.filter (fun i => key i =? k) l) with
    | Some v => Some v
    | None => d !! k
    end.
Proof.
  revert d. induction l as [|a l IH]; intros d; cbn; [reflexivity|].
  rewrite IH. destruct (Z.eqb_spec (key a) k) as [Heq|Hne].
  - rewrite last_cons. destruct (last _); [reflexivity|].
    rewrite <- Heq. apply lookup_insert_eq.
  - destruct (last _); [reflexivity|]. by apply lookup_insert_ne.
Qed.

(** X8: the table built from the side-loaded list maps an id to the last
    entry of the list with that id; so an id is in the table exactly when
    an entry has it, and every entry is stored under its own id. *)
Theorem dict_by_id_lookup {V : Type} (key : V -> Z) (l : list V) k :
  dict_by_id key l !! k = last (List.filter (fun i => key i =? k) l) /\
  (is_Some (dict_by_id key l !! k) <-> exists v, In v l /\ key v = k) /\
  (forall v, dict_by_id key l !! k = Some v -> In v l /\ key v = k).
Proof.
  assert (dict_by_id key l !! k = last (List.filter (fun i => key i =? k) l)) as Hlast.
  { unfold dict_by_id. rewrite foldl_insert_lookup, lookup_empty.
    by destruct (last _). }
  assert (forall v, dict_by_id key l !! k = Some v -> In v l /\ key v = k) as Hin.
  { intros v. rewrite Hlast. intros Hv.
    assert (In v (List.filter (fun i => key i =? k) l)) as Hf.
    { apply list_elem_of_In. by eapply last_Some_elem_of. }
    apply filter_In in Hf as [Hl Hk]. split; [exact Hl|]. by apply Z.eqb_eq. }
  split; [exact Hlast|]. split; [|exact Hin].
  split.
  - intros [v Hv]. exists v. by apply Hin.
  - intros (v & Hl & Hk). rewrite Hlast.
    assert (In v (List.filter (fun i => key i =? k) l)) as Hf.
    { apply filter_In. split; [exact Hl|]. by apply Z.eqb_eq. }
    destruct (List.filter _ l) as [|a f] eqn:Hfl; [destruct Hf|].
    destruct (last (a :: f)) eqn:Hla; [eauto|].
    by apply last_None in Hla.
Qed.

Lemma parse_new_messages_filter users chats (l : list Update) :
  parse_new_messages users chats (List.filter is_new_message l)
  = parse_new_messages users chats l.
Proof.
  induction l as [|i l IH]; [reflexivity|].
  destruct i; cbn; by rewrite ?IH.
Qed.

(** X9: updates of other kinds have no influence: two answers with the
    same side-loaded lists and the same new-message updates, in the same
    order, give the same messages, wherever other updates stand between
    them. *)
Theorem forwarded_messages_ignores_other_updates (r r' : Updates) :
  users r = users r' ->
  chats r = chats r' ->
  List.filter is_new_message (updates r) = List.filter is_new_message (updates r') ->
  forwarded_messages r = forwarded_messages r'.
Proof.
  intros Hu Hc Hf. unfold forwarded_messages. rewrite Hu, Hc.
  rewrite <- (parse_new_messages_filter _ _ (updates r)), Hf.
  apply parse_new_messages_filter.
Qed.

End more.

Lemma forward_request_ids_witness :
  NoDup (random_id
    (@forward_request Fixture.collaborators (Fixture.forward_client Fixture.only_read)
       (ChatInt 10) (ChatInt 20) (IterableIds [1; 2; 3]) None (Some false) None None)).
Proof.
  apply (@forward_request_ids Fixture.collaborators
           (Fixture.forward_client Fixture.only_read)
           (ChatInt 10) (ChatInt 20) (IterableIds [1; 2; 3]) None (Some false) None None).
  cbn. intros i j _ _ Hij. lia.
Defined.

Lemma dict_by_id_lookup_witness :
  dict_by_id fst [(7, "ann"%string); (1, "root"%string); (7, "anna"%string)] !! 7
  = Some (7, "anna"%string) /\
  In (7, "anna"%string) [(7, "ann"%string); (1, "root"%string); (7, "anna"%string)] /\
  fst (7, "anna"%string) = 7.
Proof.
  split; [reflexivity|].
  apply (proj2 (proj2 (dict_by_id_lookup fst
           [(7, "ann"%string); (1, "root"%string); (7, "anna"%string)] 7))).
  reflexivity.
Defined.

Lemma forwarded_messages_ignores_other_updates_witness :
  @forwarded_messages Fixture.collaborators
    (@Build_Updates Fixture.collaborators Fixture.two_new_one_read [] [])
  = @forwarded_messages Fixture.collaborators
      (@Build_Updates Fixture.collaborators
         (List.filter (@is_new_message Fixture.collaborators) Fixture.two_new_one_read)
         [] []).
Proof.
  apply (@forwarded_messages_ignores_other_updates Fixture.collaborators); reflexivity.
Defined.

End ForwardMessagesProofs.

(** * Properties of get_chat_photos *)

Module GetChatPhotosProofs.
Import GetChatPhotos.
Section photos.
Context `{Collaborators}.

Lemma yielded_map_Yield (photos : list Photo) : yielded (map Yield photos) = photos.
Proof. induction photos as [|p l IH]; cbn; [reflexivity|]. by f_equal. Qed.

Lemma yielded_app (t1 t2 : list Event) : yielded (t1 ++ t2) = yielded t1 ++ yielded t2.
Proof. apply omap_app. Qed.

Lemma requests_map_Yield (photos : list Photo) : requests (map Yield photos) = [].
Proof. induction photos as [|p l IH]; cbn; [reflexivity|]. exact IH. Qed.

Lemma requests_app (t1 t2 : list Event) : requests (t1 ++ t2) = requests t1 ++ requests t2.
Proof. apply omap_app. Qed.

Lemma requests_Invoke rq (t : list Event) : requests (Invoke rq :: t) = rq :: requests t.
Proof. reflexivity. Qed.

Lemma yielded_Invoke rq (t : list Event) : yielded (Invoke rq :: t) = yielded t.
Proof. reflexivity. Qed.

(** ** The channel branch *)

(** The [enumerate] loop yields the first [max 1 limit] photos. *)
Lemma enumerate_yield_take (limit : Z) (photos : list Photo) (current : Z) :
  1 <= current ->
  enumerate_yield limit current photos
  = map Yield (take (Z.to_nat (Z.max 1 (limit - current + 1))) photos).
Proof.
  revert current. induction photos as [|p l IH]; intros current Hc; cbn.
  - by rewrite take_nil.
  - destruct (Z.geb_spec current limit) as [Hge|Hlt].
    + replace (Z.max 1 (limit - current + 1)) with 1 by lia.
      change (Z.to_nat 1) with 1%nat. cbn. by rewrite take_0.
    + rewrite IH by lia.
      replace (Z.to_nat (Z.max 1 (limit - current + 1)))
        with (S (Z.to_nat (Z.max 1 (limit - (current + 1) + 1)))) by lia.
      reflexivity.
Qed.

(** For a channel the generator sends the two requests and then yields the
    first [max 1 limit] photos of the merged list. *)
Lemma get_chat_photos_channel fuel self chat_id limit :
  is_InputPeerChannel (resolve_peer self chat_id) = true ->
  exists trace,
    get_chat_photos fuel self chat_id limit = Some trace /\
    requests trace = [GetFullChannel (resolve_peer self chat_id);
                      Search (resolve_peer self chat_id) limit] /\
    yielded trace
    = take (Z.to_nat (Z.max 1 limit)) (channel_photos self (resolve_peer self chat_id) limit).
Proof.
  intros Hch. unfold get_chat_photos. rewrite Hch.
  eexists. split; [reflexivity|].
  rewrite enumerate_yield_take by lia.
  rewrite !requests_Invoke, !yielded_Invoke, requests_map_Yield, yielded_map_Yield.
  split; [reflexivity|]. f_equal. lia.
Qed.

(** ** The user branch *)

(** One page: the photos are yielded until the count reaches [total]; the
    first photo is yielded before the count is looked at. *)
Lemma yield_page_quota (total : Z) (photos : list Photo) (current : Z) :
  Z.max 1 (total - current) <= Z.of_nat (length photos) ->
  yield_page total current photos
  = (map Yield (take (Z.to_nat (Z.max 1 (total - current))) photos), None).
Proof.
  revert current. induction photos as [|p l IH]; intros current Hk; cbn in *.
  - lia.
  - destruct (Z.geb_spec (current + 1) total) as [Hge|Hlt].
    + replace (Z.max 1 (total - current)) with 1 by lia.
      change (Z.to_nat 1) with 1%nat. cbn. by rewrite take_0.
    + rewrite IH by lia.
      replace (Z.to_nat (Z.max 1 (total - current)))
        with (S (Z.to_nat (Z.max 1 (total - (current + 1))))) by lia.
      reflexivity.
Qed.

Lemma yield_page_more (total : Z) (photos : list Photo) (current : Z) :
  current + Z.of_nat (length photos) < total ->
  yield_page total current photos
  = (map Yield photos, Some (current + Z.of_nat (length photos))).
Proof.
  revert current. induction photos as [|p l IH]; intros current Hk.
  - cbn. by rewrite Z.add_0_r.
  - cbn [yield_page length map] in *.
    destruct (Z.geb_spec (current + 1) total) as [Hge|Hlt]; [lia|].
    rewrite IH by lia.
    replace (current + 1 + Z.of_nat (length l)) with (current + Z.of_nat (S (length l)))
      by lia.
    reflexivity.
Qed.

(** One round of the loop. *)
Lemma user_loop_round self peer_id total page fuel current offset :
  user_loop (S fuel) self peer_id total page current offset
  = match user_photos self peer_id offset page with
    | [] => Some [Invoke (GetUserPhotos peer_id offset 0 page)]
    | p :: l =>
        match yield_page total current (p :: l) with
        | (evs, None) => Some (Invoke (GetUserPhotos peer_id offset 0 page) :: evs)
        | (evs, Some c) =>
            rest ← user_loop fuel self peer_id total page c
                     (offset + Z.of_nat (length (p :: l)));
            Some (Invoke (GetUserPhotos peer_id offset 0 page) :: evs ++ rest)
        end
    end.
Proof. cbn. destruct (user_photos self peer_id offset page); reflexivity. Qed.

(** More fuel does not change a result. *)
Lemma user_loop_fuel_mono self peer_id total page fuel fuel' current offset trace :
  user_loop fuel self peer_id total page current offset = Some trace ->
  (fuel <= fuel')%nat ->
  user_loop fuel' self peer_id total page current offset = Some trace.
Proof.
  revert fuel' current offset trace.
  induction fuel as [|fuel IH]; intros fuel' current offset trace; [discriminate|].
  intros Hrun Hle. destruct fuel' as [|fuel']; [lia|].
  cbn in *. destruct (user_photos self peer_id offset page) as [|p l]; [exact Hrun|].
  destruct (yield_page total current (p :: l)) as [evs [c|]]; [|exact Hrun].
  destruct (user_loop fuel self peer_id total page c _) as [rest|] eqn:Hrest;
    [|discriminate].
  rewrite (IH fuel' _ _ _ Hrest) by lia. exact Hrun.
Qed.

(** Every trace of the loop is a paginated enumeration. *)
Lemma user_loop_pagination self peer_id total page fuel current offset trace :
  user_loop fuel self peer_id total page current offset = Some trace ->
  pagination self peer_id total page current offset trace.
Proof.
  revert current offset trace.
  induction fuel as [|fuel IH]; intros current offset trace; [discriminate|].
  cbn. destruct (user_photos self peer_id offset page) as [|p l] eqn:Hpage.
  - intros [= <-]. by apply round_exhausted.
  - destruct (Z_le_gt_dec (Z.max 1 (total - current)) (Z.of_nat (length (p :: l))))
      as [Hq|Hm].
    + rewrite yield_page_quota by exact Hq. intros [= <-].
      by eapply round_quota.
    + rewrite yield_page_more by (cbn [length] in *; lia).
      destruct (user_loop fuel self peer_id total page _ _) as [rest|] eqn:Hrest;
        [|discriminate].
      intros [= <-].
      change (Yield p :: map Yield l ++ rest) with (map Yield (p :: l) ++ rest).
      apply round_more; [exact Hpage|discriminate| |by apply IH].
      cbn [length] in *; lia.
Qed.

(** The loop ends: every round that does not end it yields a photo, and
    only [total] photos are yielded. *)
Lemma user_loop_terminates self peer_id total page (n : nat) current offset :
  total - current <= Z.of_nat n ->
  exists trace, user_loop (S n) self peer_id total page current offset = Some trace.
Proof.
  revert current offset. induction n as [|n IH]; intros current offset Hn.
  - cbn. destruct (user_photos self peer_id offset page) as [|p l]; [eauto|].
    rewrite yield_page_quota by (cbn; lia). eauto.
  - rewrite user_loop_round.
    destruct (user_photos self peer_id offset page) as [|p l]; [eauto|].
    destruct (Z_le_gt_dec (Z.max 1 (total - current)) (Z.of_nat (length (p :: l))))
      as [Hq|Hm].
    + rewrite yield_page_quota by exact Hq. eauto.
    + rewrite yield_page_more by (cbn [length] in *; lia).
      destruct (IH (current + Z.of_nat (length (p :: l)))
                   (offset + Z.of_nat (length (p :: l)))) as [rest Hrest].
      { cbn [length] in *. lia. }
      rewrite Hrest. cbn. eauto.
Qed.

(** A paginated enumeration only sends user-photos requests for [page]
    photos, the first of them at the cursor it starts from. *)
Lemma pagination_requests self peer_id total page current offset trace :
  pagination self peer_id total page current offset trace ->
  Forall (fun rq => exists o, rq = GetUserPhotos peer_id o 0 page) (requests trace) /\
  head (requests trace) = Some (GetUserPhotos peer_id offset 0 page).
Proof.
  induction 1 as [current offset Hpage
                 |current offset photos k Hpage Hk Hle
                 |current offset photos rest Hpage Hne Hlt Hrest [IH _]].
  - split; [|reflexivity]. repeat constructor. eauto.
  - rewrite requests_Invoke, requests_map_Yield.
    split; [|reflexivity]. repeat constructor. eauto.
  - rewrite requests_Invoke, requests_app, requests_map_Yield.
    split; [|reflexivity]. constructor; [eauto|exact IH].
Qed.

(** A paginated enumeration yields at most [max 1 (total - current)]
    photos. *)
Lemma pagination_yielded_bound self peer_id total page current offset trace :
  pagination self peer_id total page current offset trace ->
  Z.of_nat (length (yielded trace)) <= Z.max 1 (total - current).
Proof.
  induction 1 as [current offset Hpage
                 |current offset photos k Hpage Hk Hle
                 |current offset photos rest Hpage Hne Hlt Hrest IH].
  - cbn. lia.
  - rewrite yielded_Invoke, yielded_map_Yield, length_take. lia.
  - rewrite yielded_Invoke, yielded_app, yielded_map_Yield, length_app. lia.
Qed.

Lemma get_chat_photos_fuel_mono fuel fuel' self chat_id limit trace :
  get_chat_photos fuel self chat_id limit = Some trace ->
  (fuel <= fuel')%nat ->
  get_chat_photos fuel' self chat_id limit = Some trace.
Proof.
  unfold get_chat_photos.
  destruct (is_InputPeerChannel (resolve_peer self chat_id)); [tauto|].
  apply user_loop_fuel_mono.
Qed.

(** C2: for a channel the list of photos is the current photo put before
    the search results when its file id differs from that of the newest
    result, the search results alone when the file ids agree, and the
    current photo alone, if any, when the search finds nothing.  The
    generator yields the photos of that list from its head. *)
Theorem get_chat_photos_channel_merge self chat_id limit :
  let peer_id := resolve_peer self chat_id in
  let current := full_chat_photo self peer_id in
  let extra := map new_chat_photo (search_chat_photos self peer_id limit) in
  let photos := channel_photos self peer_id limit in
  is_InputPeerChannel peer_id = true ->
  (forall fuel, exists trace,
     get_chat_photos fuel self chat_id limit = Some trace /\
     yielded trace = take (Z.to_nat (Z.max 1 limit)) photos) /\
  (forall cur newest older,
     current = Some cur -> extra = newest :: older ->
     file_id cur <> file_id newest -> photos = cur :: newest :: older) /\
  (forall cur newest older,
     current = Some cur -> extra = newest :: older ->
     file_id cur = file_id newest -> photos = newest :: older) /\
  (forall newest older,
     current = None -> extra = newest :: older -> photos = newest :: older) /\
  (extra = [] ->
     photos = match current with Some cur => [cur] | None => [] end).
Proof.
  intros peer_id current extra photos Hch.
  split; [|unfold photos, channel_photos; fold peer_id current extra; repeat split].
  - intros fuel. destruct (get_chat_photos_channel fuel self chat_id limit Hch)
      as (trace & Hrun & _ & Hy). eauto.
  - intros cur newest older -> -> Hne. cbn. by rewrite decide_True.
  - intros cur newest older -> -> Heq. cbn. by rewrite decide_False by tauto.
  - intros newest older -> ->. reflexivity.
  - intros ->. reflexivity.
Qed.

End photos.

(** C1: on a channel whose current photo [X] is followed by the photo
    changes [Y] and [Z'], three photos are available, and a call with
    [limit = 0] yields [X] alone: [1 >= 0] ends the enumeration after the
    first photo.  The user branch, which replaces a zero limit by [1 << 31],
    yields all photos of a store, as the docstring promises for both. *)
Theorem get_chat_photos_channel_limit_0 :
  let self := Fixture.channel_client (Some Fixture.X) [(11, Fixture.Y); (10, Fixture.Z')] in
  @channel_photos Fixture.collaborators self (InputPeerChannel 1 0) 0
  = [Fixture.X; Fixture.Y; Fixture.Z'] /\
  yielded <$> @get_chat_photos Fixture.collaborators 1 self (ChatInt 1) 0
  = Some [Fixture.X] /\
  yielded <$> @get_chat_photos Fixture.collaborators 2
                (Fixture.store_client [Fixture.X; Fixture.Y; Fixture.Z']) (ChatInt 1) 0
  = Some [Fixture.X; Fixture.Y; Fixture.Z'].
Proof. repeat split. Qed.

Lemma get_chat_photos_channel_merge_witness :
  let self := Fixture.channel_client (Some Fixture.X)
                [(11, Fixture.X'); (10, Fixture.Y); (9, Fixture.Z')] in
  @is_InputPeerChannel (@resolve_peer Fixture.collaborators self (ChatInt 1)) = true /\
  @channel_photos Fixture.collaborators self (InputPeerChannel 1 0) 5
  = [Fixture.X'; Fixture.Y; Fixture.Z'].
Proof.
  intros self. split; [reflexivity|].
  pose proof (@get_chat_photos_channel_merge Fixture.collaborators self (ChatInt 1) 5
                eq_refl) as (_ & _ & Hsame & _).
  apply (Hsame Fixture.X Fixture.X' [Fixture.Y; Fixture.Z']); reflexivity.
Defined.

(** ** A backing store of 250 photos, no limit *)

Lemma store_250_rounds fuel trace :
  @get_chat_photos Fixture.collaborators fuel
    (Fixture.store_client (Fixture.numbered_photos 250)) (ChatInt 1) 0 = Some trace ->
  requests trace
  = [GetUserPhotos (InputPeerUser 1 0) 0 0 100;
     GetUserPhotos (InputPeerUser 1 0) 100 0 100;
     GetUserPhotos (InputPeerUser 1 0) 200 0 100;
     GetUserPhotos (InputPeerUser 1 0) 250 0 100] /\
  yielded trace = Fixture.numbered_photos 250.
Proof.
  intros Hrun.
  destruct (le_lt_dec 4 fuel) as [Hge|Hlt].
  - assert (requests <$> @get_chat_photos Fixture.collaborators 4
              (Fixture.store_client (Fixture.numbered_photos 250)) (ChatInt 1) 0
            = Some [GetUserPhotos (InputPeerUser 1 0) 0 0 100;
                    GetUserPhotos (InputPeerUser 1 0) 100 0 100;
                    GetUserPhotos (InputPeerUser 1 0) 200 0 100;
                    GetUserPhotos (InputPeerUser 1 0) 250 0 100]) as Hrq
      by (vm_compute; reflexivity).
    assert (yielded <$> @get_chat_photos Fixture.collaborators 4
              (Fixture.store_client (Fixture.numbered_photos 250)) (ChatInt 1) 0
            = Some (Fixture.numbered_photos 250)) as Hyl
      by (vm_compute; reflexivity).
    destruct (@get_chat_photos Fixture.collaborators 4
                (Fixture.store_client (Fixture.numbered_photos 250)) (ChatInt 1) 0)
      as [t4|] eqn:H4; [|discriminate].
    pose proof (get_chat_photos_fuel_mono _ _ _ _ _ _ H4 Hge) as Hrun'.
    assert (t4 = trace) as <- by congruence.
    injection Hrq as Hrq. injection Hyl as Hyl. by split.
  - destruct fuel as [|[|[|[|fuel]]]]; [| | | |lia]; vm_compute in Hrun; discriminate.
Qed.

(** C5, amended: for a target that is not a channel, every round asks for
    the same page size [min 100 total], where [total] is the limit, or
    [1 << 31] for the limit 0; the offset advances by the number of photos
    answered; the enumeration ends exactly with the first round that is
    answered by no photo or in which the count of yielded photos reaches
    [total]; it always ends.  With a store of 250 photos and no limit there
    are four rounds, answered by 100, 100, 50 and 0 photos, and the 250
    photos are yielded in the order of the store. *)
Theorem get_chat_photos_user_pagination :
  (forall (C : Collaborators) (self : Client) chat_id limit,
     is_InputPeerChannel (resolve_peer self chat_id) = false ->
     exists fuel trace,
       (forall fuel', (fuel <= fuel')%nat ->
          get_chat_photos fuel' self chat_id limit = Some trace) /\
       pagination self (resolve_peer self chat_id)
         (total_of limit) (Z.min 100 (total_of limit)) 0 0 trace /\
       Forall (fun rq => exists o,
                 rq = GetUserPhotos (resolve_peer self chat_id) o 0
                        (Z.min 100 (total_of limit)))
         (requests trace)) /\
  (let self := Fixture.store_client (Fixture.numbered_photos 250) in
   map (fun o => length (@user_photos Fixture.collaborators self (InputPeerUser 1 0) o 100))
     [0; 100; 200; 250] = [100; 100; 50; 0]%nat /\
   forall fuel trace,
     @get_chat_photos Fixture.collaborators fuel self (ChatInt 1) 0 = Some trace ->
     requests trace
     = [GetUserPhotos (InputPeerUser 1 0) 0 0 100;
        GetUserPhotos (InputPeerUser 1 0) 100 0 100;
        GetUserPhotos (InputPeerUser 1 0) 200 0 100;
        GetUserPhotos (InputPeerUser 1 0) 250 0 100] /\
     yielded trace = Fixture.numbered_photos 250).
Proof.
  split.
  - intros C self chat_id limit Hch.
    destruct (user_loop_terminates self (resolve_peer self chat_id)
                (total_of limit) (Z.min 100 (total_of limit))
                (Z.to_nat (total_of limit)) 0 0) as [trace Hrun]; [lia|].
    exists (S (Z.to_nat (total_of limit))), trace.
    pose proof (user_loop_pagination _ _ _ _ _ _ _ _ Hrun) as Hpag.
    split; [|split; [exact Hpag|]].
    + intros fuel' Hle. unfold get_chat_photos. rewrite Hch.
      by apply (user_loop_fuel_mono _ _ _ _ _ _ _ _ _ Hrun).
    + by destruct (pagination_requests _ _ _ _ _ _ _ Hpag).
  - split; [reflexivity|]. apply store_250_rounds.
Qed.

Lemma get_chat_photos_user_pagination_witness :
  let self := Fixture.store_client (Fixture.numbered_photos 250) in
  @is_InputPeerChannel (@resolve_peer Fixture.collaborators self (ChatInt 1)) = false /\
  exists fuel trace,
    (forall fuel', (fuel <= fuel')%nat ->
       @get_chat_photos Fixture.collaborators fuel' self (ChatInt 1) 7 = Some trace) /\
    @pagination Fixture.collaborators self (InputPeerUser 1 0) 7 7 0 0 trace.
Proof.
  intros self. split; [reflexivity|].
  destruct (proj1 get_chat_photos_user_pagination Fixture.collaborators self (ChatInt 1) 7
              eq_refl) as (fuel & trace & Hrun & Hpag & _).
  exists fuel, trace. split; [exact Hrun|exact Hpag].
Defined.

(** Three rounds and a shrinking page size are not what happens.  With 250
    photos and no limit no drained enumeration has three requests.  With
    the limit 150 the second round, with 50 photos still wanted, asks for
    100. *)
Lemma get_chat_photos_user_pagination_counterexample :
  let self := Fixture.store_client (Fixture.numbered_photos 250) in
  ~ (exists fuel trace,
       @get_chat_photos Fixture.collaborators fuel self (ChatInt 1) 0 = Some trace /\
       length (requests trace) = 3%nat) /\
  requests <$> @get_chat_photos Fixture.collaborators 2 self (ChatInt 1) 150
  = Some [GetUserPhotos (InputPeerUser 1 0) 0 0 100;
          GetUserPhotos (InputPeerUser 1 0) 100 0 100] /\
  Z.min 100 (150 - 100) <> 100.
Proof.
  intros self. split; [|split; [reflexivity|discriminate]].
  intros (fuel & trace & Hrun & Hlen).
  destruct (store_250_rounds fuel trace Hrun) as [Hrq _].
  rewrite Hrq in Hlen. discriminate.
Qed.

(** ** Bounds, cursors and a slicing gateway *)

Section more.
Context `{Collaborators}.

(** X10: for a channel and a limit of at least 1 the generator sends the
    full-channel request and the search request carrying the limit, then
    yields the first [limit] photos of the merged list, all of them when
    there are no more than [limit]. *)
Theorem get_chat_photos_channel_limit fuel self chat_id limit :
  is_InputPeerChannel (resolve_peer self chat_id) = true ->
  1 <= limit ->
  let peer_id := resolve_peer self chat_id in
  let photos := channel_photos self peer_id limit in
  exists trace,
    get_chat_photos fuel self chat_id limit = Some trace /\
    requests trace = [GetFullChannel peer_id; Search peer_id limit] /\
    yielded trace = take (Z.to_nat limit) photos /\
    length (yielded trace) = (Z.to_nat limit `min` length photos)%nat /\
    (Z.of_nat (length photos) <= limit -> yielded trace = photos).
Proof.
  intros Hch Hlimit peer_id photos.
  destruct (get_chat_photos_channel fuel self chat_id limit Hch)
    as (trace & Hrun & Hrq & Hy).
  replace (Z.max 1 limit) with limit in Hy by lia.
  exists trace. repeat split; try assumption.
  - rewrite Hy. apply length_take.
  - intros Hall. rewrite Hy. apply take_ge. fold peer_id photos. lia.
Qed.

(** X11: merging keeps the search results, in their order, as the tail of
    the list; at most the current photo is put before them, and only when
    its file id differs from that of the newest result. *)
Theorem merge_photos_suffix (current : option Photo) (extra : list Photo) :
  merge_photos current extra = extra \/
  (exists cur, current = Some cur /\ merge_photos current extra = cur :: extra /\
     forall newest, head extra = Some newest -> file_id cur <> file_id newest).
Proof.
  unfold merge_photos. destruct extra as [|newest older], current as [cur|];
    try (left; reflexivity).
  - right. exists cur. repeat split. discriminate.
  - case_decide; [|left; reflexivity].
    right. exists cur. repeat split. by intros ? [= <-].
Qed.

(** X12: with a limit other than 0 no target ever gets more than
    [max 1 limit] photos, whatever the gateway answers. *)
Theorem get_chat_photos_at_most_limit fuel self chat_id limit trace :
  get_chat_photos fuel self chat_id limit = Some trace ->
  limit <> 0 ->
  Z.of_nat (length (yielded trace)) <= Z.max 1 limit.
Proof.
  intros Hrun Hlimit. unfold get_chat_photos in Hrun.
  destruct (is_InputPeerChannel (resolve_peer self chat_id)) eqn:Hch.
  - injection Hrun as <-.
    rewrite !yielded_Invoke, enumerate_yield_take, yielded_map_Yield, length_take by lia.
    lia.
  - apply user_loop_pagination, pagination_yielded_bound in Hrun.
    unfold total_of in Hrun. destruct (Z.eqb_spec limit 0); lia.
Qed.

(** Every round of a paginated enumeration but the last yields a photo. *)
Lemma pagination_requests_bound self peer_id total page current offset trace :
  pagination self peer_id total page current offset trace ->
  (length (requests trace) <= length (yielded trace) + 1)%nat.
Proof.
  induction 1 as [current offset Hpage
                 |current offset photos k Hpage Hk Hle
                 |current offset photos rest Hpage Hne Hlt Hrest IH].
  - cbn. lia.
  - rewrite requests_Invoke, requests_map_Yield. cbn. lia.
  - rewrite requests_Invoke, yielded_Invoke, requests_app, yielded_app,
      requests_map_Yield, yielded_map_Yield, length_app.
    destruct photos; [done|]. cbn [length app]. lia.
Qed.

(** X13: in the user branch every round but the last yields a photo: a
    drained enumeration sends at least one request and at most one request
    more than it yields photos. *)
Theorem get_chat_photos_user_requests_bound fuel self chat_id limit trace :
  is_InputPeerChannel (resolve_peer self chat_id) = false ->
  get_chat_photos fuel self chat_id limit = Some trace ->
  (1 <= length (requests trace) <= length (yielded trace) + 1)%nat.
Proof.
  intros Hch Hrun. unfold get_chat_photos in Hrun. rewrite Hch in Hrun.
  apply user_loop_pagination in Hrun. split.
  - destruct (pagination_requests _ _ _ _ _ _ _ Hrun) as [_ Hhead].
    destruct (requests trace); [discriminate|cbn; lia].
  - by eapply pagination_requests_bound.
Qed.

Lemma map_Yield_no_Invoke (photos : list Photo) t1 rq t2 :
  map Yield photos = t1 ++ Invoke rq :: t2 -> False.
Proof.
  intros Heq. apply (f_equal requests) in Heq.
  rewrite requests_map_Yield, requests_app, requests_Invoke in Heq.
  by destruct (requests t1).
Qed.

(** Wherever a request stands in a paginated enumeration, its offset is the
    starting cursor advanced by the number of photos yielded before it. *)
Lemma pagination_cursor self peer_id total page current offset trace :
  pagination self peer_id total page current offset trace ->
  forall t1 rq t2, trace = t1 ++ Invoke rq :: t2 ->
  rq = GetUserPhotos peer_id (offset + Z.of_nat (length (yielded t1))) 0 page.
Proof.
  induction 1 as [current offset Hpage
                 |current offset photos k Hpage Hk Hle
                 |current offset photos rest Hpage Hne Hlt Hrest IH];
    intros t1 rq t2 Heq.
  - destruct t1 as [|e t1]; injection Heq as <- Heq.
    + cbn. by rewrite Z.add_0_r.
    + by destruct t1.
  - destruct t1 as [|e t1]; injection Heq as <- Heq.
    + cbn. by rewrite Z.add_0_r.
    + by apply map_Yield_no_Invoke in Heq.
  - destruct t1 as [|e t1]; injection Heq as <- Heq.
    + cbn. by rewrite Z.add_0_r.
    + rewrite yielded_Invoke.
      apply app_eq_inv in Heq as [(k & Hk1 & Hk2)|(k & -> & Hk2)].
      * destruct k as [|e k].
        -- rewrite app_nil_r in Hk1. subst t1. cbn in Hk2.
           rewrite (IH [] rq t2 (eq_sym Hk2)), yielded_map_Yield. cbn.
           f_equal. lia.
        -- injection Hk2 as <- Hk2. by apply map_Yield_no_Invoke in Hk1.
      * rewrite (IH k rq t2 Hk2), yielded_app, yielded_map_Yield, length_app.
        f_equal. lia.
Qed.

(** X14: in the user branch the offset of every request is the number of
    photos yielded before the request is sent. *)
Theorem get_chat_photos_user_cursor fuel self chat_id limit trace t1 rq t2 :
  is_InputPeerChannel (resolve_peer self chat_id) = false ->
  get_chat_photos fuel self chat_id limit = Some trace ->
  trace = t1 ++ Invoke rq :: t2 ->
  rq = GetUserPhotos (resolve_peer self chat_id)
         (Z.of_nat (length (yielded t1))) 0 (Z.min 100 (total_of limit)).
Proof.
  intros Hch Hrun Hsplit. unfold get_chat_photos in Hrun. rewrite Hch in Hrun.
  apply user_loop_pagination in Hrun.
  by rewrite (pagination_cursor _ _ _ _ _ _ _ Hrun _ _ _ Hsplit).
Qed.

Lemma pagination_yielded_prefix self peer_id total page current offset trace :
  pagination self peer_id total page current offset trace ->
  yielded trace `prefix_of` concat (map (answer self) (requests trace)).
Proof.
  induction 1 as [current offset Hpage
                 |current offset photos k Hpage Hk Hle
                 |current offset photos rest Hpage Hne Hlt Hrest IH].
  - apply prefix_nil.
  - rewrite requests_Invoke, yielded_Invoke, requests_map_Yield, yielded_map_Yield.
    cbn. rewrite Hpage, app_nil_r. apply prefix_take.
  - rewrite requests_Invoke, yielded_Invoke, requests_app, yielded_app,
      requests_map_Yield, yielded_map_Yield.
    cbn. rewrite Hpage. by apply prefix_app.
Qed.

(** X16: in the user branch the photos yielded are, in order and without a
    gap, the photos the gateway answered with, up to the point where the
    enumeration stops: nothing is reordered, skipped or made up. *)
Theorem get_chat_photos_user_yields_answers fuel self chat_id limit trace :
  is_InputPeerChannel (resolve_peer self chat_id) = false ->
  get_chat_photos fuel self chat_id limit = Some trace ->
  yielded trace `prefix_of` concat (map (answer self) (requests trace)).
Proof.
  intros Hch Hrun. unfold get_chat_photos in Hrun. rewrite Hch in Hrun.
  by eapply pagination_yielded_prefix, user_loop_pagination.
Qed.

End more.

(** A paginated enumeration against a store yields the photos of the store
    from the cursor on, up to the total. *)
Lemma store_pagination_yielded store peer_id total page current offset trace :
  @pagination Fixture.collaborators (Fixture.store_client store)
    peer_id total page current offset trace ->
  1 <= page -> current < total -> 0 <= offset ->
  yielded trace = take (Z.to_nat (total - current)) (drop (Z.to_nat offset) store).
Proof.
  induction 1 as [current offset Hpage
                 |current offset photos k Hpage Hk Hle
                 |current offset photos rest Hpage Hne Hlt Hrest IH];
    intros Hp Hc Ho; cbn in Hpage.
  - apply take_nil_inv in Hpage as [Hz| ->]; [lia|]. by rewrite take_nil.
  - rewrite yielded_Invoke, yielded_map_Yield. subst photos k.
    rewrite length_take in Hle. rewrite take_take. f_equal. lia.
  - rewrite yielded_Invoke, yielded_app, yielded_map_Yield, IH by lia.
    set (r := drop (Z.to_nat offset) store) in *.
    replace (drop (Z.to_nat (offset + Z.of_nat (length photos))) store)
      with (drop (length photos) r)
      by (unfold r; rewrite drop_drop; f_equal; lia).
    assert (photos = take (length photos) r) as Hphotos.
    { subst photos. rewrite length_take.
      match goal with
      | |- context [Nat.min ?a ?b] =>
          destruct (Nat.min_spec a b) as [[_ ->]|[Hr ->]]; [reflexivity|]
      end.
      rewrite (take_ge r (Z.to_nat page)) by exact Hr. by rewrite take_ge. }
    rewrite Hphotos at 1. rewrite take_take_drop. f_equal. lia.
Qed.

(** X15: against a gateway that serves slices of a store, and for a limit
    that is not negative, the enumeration ends and yields the first
    [limit] photos of the store in order, the whole store for the limit 0
    (fewer than [1 << 31] photos) and whenever the limit is not reached. *)
Theorem get_chat_photos_store store chat_id limit :
  0 <= limit ->
  (exists fuel trace,
     @get_chat_photos Fixture.collaborators fuel (Fixture.store_client store)
       chat_id limit = Some trace) /\
  (forall fuel trace,
     @get_chat_photos Fixture.collaborators fuel (Fixture.store_client store)
       chat_id limit = Some trace ->
     yielded trace = take (Z.to_nat (total_of limit)) store /\
     (Z.of_nat (length store) <= total_of limit -> yielded trace = store)).
Proof.
  intros Hlimit.
  assert (1 <= total_of limit) as Htotal.
  { unfold total_of. destruct (Z.eqb_spec limit 0); [done|lia]. }
  split.
  - destruct (@user_loop_terminates Fixture.collaborators (Fixture.store_client store)
                (InputPeerUser 1 0) (total_of limit) (Z.min 100 (total_of limit))
                (Z.to_nat (total_of limit)) 0 0) as [trace Hrun]; [lia|].
    exists (S (Z.to_nat (total_of limit))), trace. exact Hrun.
  - intros fuel trace Hrun.
    apply (@user_loop_pagination Fixture.collaborators) in Hrun.
    apply store_pagination_yielded in Hrun; [|lia..].
    rewrite Z.sub_0_r in Hrun. change (Z.to_nat 0) with 0%nat in Hrun.
    rewrite drop_0 in Hrun. split; [exact Hrun|].
    intros Hall. rewrite Hrun. apply take_ge.
    apply Nat2Z.inj_le. rewrite Z2Nat.id by lia. exact Hall.
Qed.

Lemma get_chat_photos_channel_limit_witness :
  let self := Fixture.channel_client (Some Fixture.X) [(11, Fixture.Y); (10, Fixture.Z')] in
  exists trace,
    @get_chat_photos Fixture.collaborators 0 self (ChatInt 1) 2 = Some trace /\
    yielded trace = [Fixture.X; Fixture.Y].
Proof.
  intros self.
  destruct (@get_chat_photos_channel_limit Fixture.collaborators 0 self (ChatInt 1) 2
              eq_refl ltac:(lia)) as (trace & Hrun & _ & Hy & _).
  exists trace. split; [exact Hrun|exact Hy].
Defined.

Lemma get_chat_photos_at_most_limit_witness :
  exists trace,
    @get_chat_photos Fixture.collaborators 2
      (Fixture.store_client (Fixture.numbered_photos 5)) (ChatInt 1) 3 = Some trace /\
    Z.of_nat (length (yielded trace)) <= 3.
Proof.
  eexists. split; [reflexivity|].
  apply (@get_chat_photos_at_most_limit Fixture.collaborators 2
           (Fixture.store_client (Fixture.numbered_photos 5)) (ChatInt 1) 3 _ eq_refl).
  discriminate.
Defined.

Lemma get_chat_photos_user_requests_bound_witness :
  exists trace,
    @get_chat_photos Fixture.collaborators 2
      (Fixture.store_client (Fixture.numbered_photos 5)) (ChatInt 1) 0 = Some trace /\
    (1 <= length (requests trace) <= length (yielded trace) + 1)%nat.
Proof.
  eexists. split; [reflexivity|].
  apply (@get_chat_photos_user_requests_bound Fixture.collaborators 2
           (Fixture.store_client (Fixture.numbered_photos 5)) (ChatInt 1) 0 _
           eq_refl eq_refl).
Defined.

Lemma get_chat_photos_user_cursor_witness :
  GetUserPhotos (InputPeerUser 1 0) 5 0 100
  = GetUserPhotos (InputPeerUser 1 0)
      (Z.of_nat (length (@yielded Fixture.collaborators
                   (@Invoke Fixture.collaborators (GetUserPhotos (InputPeerUser 1 0) 0 0 100) ::
                    map (@Yield Fixture.collaborators) (Fixture.numbered_photos 5))))) 0 100.
Proof.
  apply (@get_chat_photos_user_cursor Fixture.collaborators 2
           (Fixture.store_client (Fixture.numbered_photos 5)) (ChatInt 1) 0 _
           (@Invoke Fixture.collaborators (GetUserPhotos (InputPeerUser 1 0) 0 0 100) ::
            map (@Yield Fixture.collaborators) (Fixture.numbered_photos 5))
           (GetUserPhotos (InputPeerUser 1 0) 5 0 100) [] eq_refl eq_refl).
  reflexivity.
Defined.

Lemma get_chat_photos_user_yields_answers_witness :
  exists trace,
    @get_chat_photos Fixture.collaborators 2
      (Fixture.store_client (Fixture.numbered_photos 5)) (ChatInt 1) 3 = Some trace /\
    yielded trace `prefix_of`
      concat (map (@answer Fixture.collaborators
                     (Fixture.store_client (Fixture.numbered_photos 5)))
                (requests trace)).
Proof.
  eexists. split; [reflexivity|].
  apply (@get_chat_photos_user_yields_answers Fixture.collaborators 2
           (Fixture.store_client (Fixture.numbered_photos 5)) (ChatInt 1) 3 _
           eq_refl eq_refl).
Defined.

Lemma get_chat_photos_store_witness :
  0 <= 2 /\
  exists fuel trace,
    @get_chat_photos Fixture.collaborators fuel
      (Fixture.store_client (Fixture.numbered_photos 5)) (ChatInt 1) 2 = Some trace.
Proof.
  split; [lia|].
  apply (@get_chat_photos_store (Fixture.numbered_photos 5) (ChatInt 1) 2). lia.
Defined.

End GetChatPhotosProofs.
